(** * Research_Agent: the retrieval, extraction, ranking and synthesis helpers

    A shallow embedding of [source/utils.py] (class [ResearchHelpFunctions])
    and of [db.py] (class [ResearchDatabase]), with the properties of the
    written specification stated and settled on it.

    Python [str] values are sequences of Unicode code points; the built-in
    string methods the code calls ([split], [join], [strip], [lower],
    [replace], [in]) are given executable definitions of their documented
    behaviour.  External services (HTTP, the JSON decoder, the HTML parser,
    the embedding model, the language model) enter as explicit outcomes.
    The politeness pauses ([time.sleep], [asyncio.sleep]) and the [print]
    calls change no returned value and are left out; [robust_search] is the
    exception, where the console is an explicit outcome, because a [print]
    that raises inside its [try] ends the loop over a provider's URLs. *)

From Stdlib Require Import String Ascii.
From Stdlib Require Import List NArith ZArith QArith Bool Lia.
From Stdlib Require Import Permutation Sorted.
Import ListNotations.
Close Scope Q_scope.

(** ** Python strings *)

Module PyStr.

(** A [str] is a list of code points. *)
Definition str := list N.

(** ASCII literals of the source, written as Rocq strings. *)
Definition lit (s : string) : str := map N_of_ascii (list_ascii_of_string s).

Definition NL : N := 10%N.

Fixpoint eqb_str (a b : str) : bool :=
  match a, b with
  | [], [] => true
  | x :: a', y :: b' => (x =? y)%N && eqb_str a' b'
  | _, _ => false
  end.

Definition nonempty {A} (l : list A) : bool :=
  match l with [] => false | _ :: _ => true end.

Definition in_range (c : N) (r : N * N) : bool :=
  (fst r <=? c)%N && (c <=? snd r)%N.

Definition in_ranges (rs : list (N * N)) (c : N) : bool :=
  existsb (in_range c) rs.

(** [str.isspace] on one code point (CPython's [Py_UNICODE_ISSPACE]). *)
Definition space_ranges : list (N * N) :=
  [ (0x9, 0xd); (0x1c, 0x20); (0x85, 0x85); (0xa0, 0xa0); (0x1680, 0x1680);
    (0x2000, 0x200a); (0x2028, 0x2029); (0x202f, 0x202f); (0x205f, 0x205f);
    (0x3000, 0x3000) ]%N.

Definition isspace (c : N) : bool := in_ranges space_ranges c.

(** The class [\d] of a [str] pattern: the code points of category Nd
    (Unicode 14.0, the table of CPython 3.11). *)
Definition decimal_ranges : list (N * N) :=
  [ (0x30, 0x39); (0x660, 0x669); (0x6f0, 0x6f9); (0x7c0, 0x7c9);
    (0x966, 0x96f); (0x9e6, 0x9ef); (0xa66, 0xa6f); (0xae6, 0xaef);
    (0xb66, 0xb6f); (0xbe6, 0xbef); (0xc66, 0xc6f); (0xce6, 0xcef);
    (0xd66, 0xd6f); (0xde6, 0xdef); (0xe50, 0xe59); (0xed0, 0xed9);
    (0xf20, 0xf29); (0x1040, 0x1049); (0x1090, 0x1099); (0x17e0, 0x17e9);
    (0x1810, 0x1819); (0x1946, 0x194f); (0x19d0, 0x19d9); (0x1a80, 0x1a89);
    (0x1a90, 0x1a99); (0x1b50, 0x1b59); (0x1bb0, 0x1bb9); (0x1c40, 0x1c49);
    (0x1c50, 0x1c59); (0xa620, 0xa629); (0xa8d0, 0xa8d9); (0xa900, 0xa909);
    (0xa9d0, 0xa9d9); (0xa9f0, 0xa9f9); (0xaa50, 0xaa59); (0xabf0, 0xabf9);
    (0xff10, 0xff19); (0x104a0, 0x104a9); (0x10d30, 0x10d39);
    (0x11066, 0x1106f); (0x110f0, 0x110f9); (0x11136, 0x1113f);
    (0x111d0, 0x111d9); (0x112f0, 0x112f9); (0x11450, 0x11459);
    (0x114d0, 0x114d9); (0x11650, 0x11659); (0x116c0, 0x116c9);
    (0x11730, 0x11739); (0x118e0, 0x118e9); (0x11950, 0x11959);
    (0x11c50, 0x11c59); (0x11d50, 0x11d59); (0x11da0, 0x11da9);
    (0x16a60, 0x16a69); (0x16ac0, 0x16ac9); (0x16b50, 0x16b59);
    (0x1d7ce, 0x1d7ff); (0x1e140, 0x1e149); (0x1e2f0, 0x1e2f9);
    (0x1e950, 0x1e959); (0x1fbf0, 0x1fbf9) ]%N.

Definition isdecimal (c : N) : bool := in_ranges decimal_ranges c.

(** [text.split()] with no separator: the maximal runs of non-space
    characters, in order; never an empty word. *)
Fixpoint split (s : str) : list str :=
  match s with
  | [] => []
  | c :: s' =>
      if isspace c then split s'
      else match s' with
           | [] => [[c]]
           | c' :: _ =>
               if isspace c' then [c] :: split s'
               else match split s' with
                    | w :: ws => (c :: w) :: ws
                    | [] => [[c]]
                    end
           end
  end.

(** [sep.join(l)]. *)
Fixpoint join (sep : str) (l : list str) : str :=
  match l with
  | [] => []
  | w :: l' =>
      match l' with
      | [] => w
      | _ :: _ => w ++ sep ++ join sep l'
      end
  end.

(** [s.startswith(p)]. *)
Fixpoint startswith (p s : str) : bool :=
  match p, s with
  | [], _ => true
  | _ :: _, [] => false
  | a :: p', b :: s' => (a =? b)%N && startswith p' s'
  end.

(** [sub in s]. *)
Fixpoint contains (sub s : str) : bool :=
  startswith sub s
  || match s with
     | [] => false
     | _ :: s' => contains sub s'
     end.

(** [s.split(sep)] for a non-empty [sep]: cut at the occurrences of [sep],
    found from the left and not overlapping.  [skip] counts the characters
    of an occurrence still to be passed over, [cur] is the piece being read
    (reversed). *)
Fixpoint split_sep_from (sep : str) (skip : nat) (cur : str) (s : str)
  : list str :=
  match s with
  | [] => [rev cur]
  | c :: s' =>
      match skip with
      | S k => split_sep_from sep k cur s'
      | O =>
          if startswith sep s
          then rev cur :: split_sep_from sep (length sep - 1) [] s'
          else split_sep_from sep 0 (c :: cur) s'
      end
  end.

Definition split_sep (sep s : str) : list str := split_sep_from sep 0 [] s.

(** [s.replace(old, new)] for a non-empty [old]. *)
Definition replace (old new s : str) : str := join new (split_sep old s).

Fixpoint lstrip (s : str) : str :=
  match s with
  | [] => []
  | c :: s' => if isspace c then lstrip s' else s
  end.

(** [s.strip()]. *)
Definition strip (s : str) : str := rev (lstrip (rev (lstrip s))).

(** [s.lower()], character by character.  Exact on ASCII and on the two
    code points outside ASCII whose lower case contains an ASCII letter
    (U+0130 and the Kelvin sign U+212A).  Every other code point outside
    ASCII has a lower case outside ASCII; the one caller deletes all of
    those in its next step, and they are left in place here. *)
Definition lower_char (c : N) : str :=
  if in_range c (0x41, 0x5a)%N then [(c + 32)%N]
  else if (c =? 0x130)%N then [0x69; 0x307]%N
  else if (c =? 0x212a)%N then [0x6b]%N
  else [c].

Definition lower (s : str) : str := flat_map lower_char s.

(** A word: non-empty and free of white space. *)
Definition is_word (w : str) : bool :=
  match w with
  | [] => false
  | _ :: _ => forallb (fun c => negb (isspace c)) w
  end.

Definition all_space (s : str) : bool := forallb isspace s.

(** [p] occurs in [s] as a contiguous piece. *)
Definition infix (p s : str) : Prop := exists pre post, s = pre ++ p ++ post.

End PyStr.

Import PyStr.

(** ** Regular expressions, as far as the source writes them *)

Module Regex.

Inductive regex :=
| Void
| Eps
| Chr (c : N)
| Digit
| Seq (r1 r2 : regex)
| Alt (r1 r2 : regex)
| Star (r : regex).

(** [r?], [r+], [r{n}] and a literal string. *)
Definition Opt (r : regex) : regex := Alt r Eps.
Definition Plus (r : regex) : regex := Seq r (Star r).

Fixpoint Rep (n : nat) (r : regex) : regex :=
  match n with
  | O => Eps
  | S k => Seq r (Rep k r)
  end.

Fixpoint Str (s : str) : regex :=
  match s with
  | [] => Eps
  | c :: s' => Seq (Chr c) (Str s')
  end.

(** The strings a pattern describes. *)
Inductive lang : regex -> str -> Prop :=
| L_eps : lang Eps []
| L_chr c : lang (Chr c) [c]
| L_digit c : isdecimal c = true -> lang Digit [c]
| L_seq r1 r2 s1 s2 : lang r1 s1 -> lang r2 s2 -> lang (Seq r1 r2) (s1 ++ s2)
| L_alt_l r1 r2 s : lang r1 s -> lang (Alt r1 r2) s
| L_alt_r r1 r2 s : lang r2 s -> lang (Alt r1 r2) s
| L_star_nil r : lang (Star r) []
| L_star_cons r s1 s2 : lang r s1 -> lang (Star r) s2 -> lang (Star r) (s1 ++ s2).

Fixpoint nullable (r : regex) : bool :=
  match r with
  | Void => false
  | Eps => true
  | Chr _ => false
  | Digit => false
  | Seq r1 r2 => nullable r1 && nullable r2
  | Alt r1 r2 => nullable r1 || nullable r2
  | Star _ => true
  end.

(** Derivative of a pattern by one character. *)
Fixpoint deriv (c : N) (r : regex) : regex :=
  match r with
  | Void => Void
  | Eps => Void
  | Chr d => if (c =? d)%N then Eps else Void
  | Digit => if isdecimal c then Eps else Void
  | Seq r1 r2 =>
      if nullable r1 then Alt (Seq (deriv c r1) r2) (deriv c r2)
      else Seq (deriv c r1) r2
  | Alt r1 r2 => Alt (deriv c r1) (deriv c r2)
  | Star r1 => Seq (deriv c r1) (Star r1)
  end.

(** [pattern.fullmatch(s)] as a truth value: the whole of [s]. *)
Fixpoint fullmatch (r : regex) (s : str) : bool :=
  match s with
  | [] => nullable r
  | c :: s' => fullmatch (deriv c r) s'
  end.

(** [pattern.match(s)] as a truth value: some prefix of [s], from its first
    character; what follows the prefix is not looked at. *)
Fixpoint rmatch (r : regex) (s : str) : bool :=
  nullable r
  || match s with
     | [] => false
     | c :: s' => rmatch (deriv c r) s'
     end.

End Regex.

Import Regex.

(** ** Class constants *)

Definition MAX_WORD_LIMIT : nat := N.to_nat 9000.

(** [re.compile(r"https?://arxiv\.org/abs/\d{4}\.\d{5}(v\d+)?")] *)
Definition ARXIV_VALID_REGEX : regex :=
  Seq (Str (lit "http"))
 (Seq (Opt (Chr 0x73))
 (Seq (Str (lit "://arxiv.org/abs/"))
 (Seq (Rep 4 Digit)
 (Seq (Chr 0x2e)
 (Seq (Rep 5 Digit)
      (Opt (Seq (Chr 0x76) (Plus Digit)))))))).

(** The test both [robust_search] and [fetch_full_text] make on a URL:
    ["arxiv.org/abs/" in url and not self.ARXIV_VALID_REGEX.match(url)]. *)
Definition malformed_arxiv (url : str) : bool :=
  contains (lit "arxiv.org/abs/") url && negb (rmatch ARXIV_VALID_REGEX url).

(** The strict abs-page form in the specification's words: the scheme and
    host, four digits, a dot, five digits, an optional version suffix, and
    nothing else. *)
Definition digits (n : nat) (s : str) : Prop :=
  length s = n /\ forallb isdecimal s = true.

Definition version_suffix (s : str) : Prop :=
  exists ds, s = lit "v" ++ ds /\ ds <> [] /\ forallb isdecimal ds = true.

Definition strict_abs_page (url : str) : Prop :=
  exists scheme d4 d5 ver,
    url = scheme ++ lit "://arxiv.org/abs/" ++ d4 ++ lit "." ++ d5 ++ ver
    /\ (scheme = lit "http" \/ scheme = lit "https")
    /\ digits 4 d4
    /\ digits 5 d5
    /\ (ver = [] \/ version_suffix ver).

(** ** Exceptions and Python values *)

(** A computation returns or raises; an exception carries its message. *)
Inductive result (A : Type) : Type :=
| Ok (a : A)
| Raise (e : str).

Arguments Ok {A} a.
Arguments Raise {A} e.

Definition bind {A B} (c : result A) (k : A -> result B) : result B :=
  match c with
  | Ok a => k a
  | Raise e => Raise e
  end.

Notation "x <- c ;; k" := (bind c (fun x => k))
  (at level 61, c at next level, right associativity).

(** [try: body / except Exception as e: handler]. *)
Definition try_except {A} (body : result A) (handler : str -> result A)
  : result A :=
  match body with
  | Ok a => Ok a
  | Raise e => handler e
  end.

#[local] Set Warnings "-register-all".

(** The values a decoded JSON document or a report dictionary holds;
    [VObject] is any object that is neither of the others. *)
Inductive value :=
| VNone
| VBool (b : bool)
| VInt (n : Z)
| VFloat (q : Q)
| VStr (s : str)
| VList (l : list value)
| VDict (kv : list (str * value))
| VObject.

Definition TypeError : str := lit "TypeError".
Definition KeyError : str := lit "KeyError".
Definition AttributeError : str := lit "AttributeError".

Fixpoint lookup (key : str) (kv : list (str * value)) : option value :=
  match kv with
  | [] => None
  | (k, v) :: kv' => if eqb_str key k then Some v else lookup key kv'
  end.

Definition is_str (s : str) (v : value) : bool :=
  match v with
  | VStr t => eqb_str s t
  | _ => false
  end.

(** [bool(v)]. *)
Definition truthy (v : value) : bool :=
  match v with
  | VNone => false
  | VBool b => b
  | VInt n => negb (n =? 0)%Z
  | VFloat q => negb (Qeq_bool q 0)
  | VStr s => nonempty s
  | VList l => nonempty l
  | VDict kv => nonempty kv
  | VObject => true
  end.

(** [key in v] for a [str] key. *)
Definition py_in (key : str) (v : value) : result bool :=
  match v with
  | VStr s => Ok (contains key s)
  | VList l => Ok (existsb (is_str key) l)
  | VDict kv => Ok (existsb (fun p => eqb_str key (fst p)) kv)
  | _ => Raise TypeError
  end.

(** [v[key]] for a [str] key. *)
Definition getitem (v : value) (key : str) : result value :=
  match v with
  | VDict kv =>
      match lookup key kv with
      | Some x => Ok x
      | None => Raise KeyError
      end
  | _ => Raise TypeError
  end.

(** [v.get(key, default)]; [v.get(key)] has default [None]. *)
Definition py_get (v : value) (key : str) (default : value) : result value :=
  match v with
  | VDict kv =>
      match lookup key kv with
      | Some x => Ok x
      | None => Ok default
      end
  | _ => Raise AttributeError
  end.

(** The elements [for x in v] goes through. *)
Definition py_iter (v : value) : result (list value) :=
  match v with
  | VList l => Ok l
  | VDict kv => Ok (map (fun p => VStr (fst p)) kv)
  | VStr s => Ok (map (fun c => VStr [c]) s)
  | _ => Raise TypeError
  end.

(** [isinstance(v, str)]. *)
Definition isinstance_str (v : value) : bool :=
  match v with
  | VStr _ => true
  | _ => false
  end.

(** ** Search providers

    Each provider takes the outcome of its external call as an argument
    and returns the list of URLs, or raises. *)

Module Providers.

(** What [requests.get] hands back: the status, the body, and what
    [response.json()] makes of the body (a decoded value, or the decoder's
    exception). *)
Record Response := {
  status_code : Z;
  text : str;
  json : result value
}.

(** [response.raise_for_status()]: an exception for 4xx and 5xx. *)
Definition raise_for_status (r : Response) : result unit :=
  if (400 <=? status_code r)%Z && (status_code r <? 600)%Z
  then Raise (lit "HTTPError")
  else Ok tt.

(** [[r.get("url") for r in items if r.get("url")]] *)
Fixpoint brave_urls (items : list value) : result (list value) :=
  match items with
  | [] => Ok []
  | r :: rest =>
      u <- py_get r (lit "url") VNone ;;
      tl <- brave_urls rest ;;
      Ok (if truthy u then u :: tl else tl)
  end.

(** [brave_search]; before the [try] the method only waits for its slot
    and stamps [_last_brave_call_time]. *)
Definition brave_search (http : result Response) : result (list value) :=
  try_except
    (response <- http ;;
     _ <- raise_for_status response ;;
     results <- json response ;;
     has_web <- py_in (lit "web") results ;;
     has_results <-
       (if has_web
        then web <- getitem results (lit "web") ;; py_in (lit "results") web
        else Ok false) ;;
     if has_results
     then
       web <- getitem results (lit "web") ;;
       rs <- getitem web (lit "results") ;;
       items <- py_iter rs ;;
       brave_urls items
     else Ok [])
    (fun _ => Ok []).

(** [re.sub(r"[^a-zA-Z0-9 ]", "", s)]: delete every character outside the
    class. *)
Definition alnum_or_space (c : N) : bool :=
  in_range c (0x61, 0x7a)%N || in_range c (0x41, 0x5a)%N
  || in_range c (0x30, 0x39)%N || (c =? 0x20)%N.

Definition sub_non_alnum (s : str) : str := filter alnum_or_space s.

(** [set(...)] of words, as the list of its distinct elements. *)
Fixpoint mem_str (w : str) (l : list str) : bool :=
  match l with
  | [] => false
  | x :: l' => eqb_str w x || mem_str w l'
  end.

Fixpoint to_set (l : list str) : list str :=
  match l with
  | [] => []
  | x :: l' => if mem_str x l' then to_set l' else x :: to_set l'
  end.

(** [a & b] *)
Definition set_inter (a b : list str) : list str :=
  filter (fun w => mem_str w b) a.

Definition query_keywords (query : str) : list str :=
  to_set (split (lower (sub_non_alnum query))).

(** [entry.split("<id>")[1].split("</id>")[0].replace("/api/", "/abs/")];
    the caller has checked ["<id>" in entry], so index 1 exists. *)
Definition raw_url_of (entry : str) : str :=
  replace (lit "/api/") (lit "/abs/")
    (hd [] (split_sep (lit "</id>") (nth 1 (split_sep (lit "<id>") entry) []))).

(** [entry.split("<title>")[1].split("</title>")[0].lower()] *)
Definition title_of (entry : str) : str :=
  lower (hd [] (split_sep (lit "</title>")
                  (nth 1 (split_sep (lit "<title>") entry) []))).

Definition title_words (title : str) : list str :=
  to_set (split (sub_non_alnum title)).

Definition has_tags (entry : str) : bool :=
  contains (lit "<id>") entry && contains (lit "<title>") entry.

(** The two tests an entry passes to be kept. *)
Definition entry_accepted (keywords : list str) (entry : str) : bool :=
  rmatch ARXIV_VALID_REGEX (raw_url_of entry)
  && (0 <? length (set_inter keywords (title_words (title_of entry)))).

(** The loop over the entries; [links] is the list appended to. *)
Fixpoint arvix_links (keywords : list str) (entries : list str)
  (links : list str) : list str :=
  match entries with
  | [] => links
  | entry :: rest =>
      if has_tags entry
      then
        if rmatch ARXIV_VALID_REGEX (raw_url_of entry)
        then
          if 0 <? length (set_inter keywords (title_words (title_of entry)))
          then arvix_links keywords rest (links ++ [raw_url_of entry])
          else arvix_links keywords rest links
        else arvix_links keywords rest links
      else arvix_links keywords rest links
  end.

Definition search_arvix (http : result Response) (query : str)
  : result (list str) :=
  try_except
    (response <- http ;;
     _ <- raise_for_status response ;;
     let entries := split_sep (lit "<entry>") (text response) in
     Ok (arvix_links (query_keywords query) entries []))
    (fun _ => Ok []).

(** [[paper["url"] for paper in papers if "url" in paper]] *)
Fixpoint scholar_urls (papers : list value) : result (list value) :=
  match papers with
  | [] => Ok []
  | paper :: rest =>
      has_url <- py_in (lit "url") paper ;;
      hd_ <- (if has_url
              then u <- getitem paper (lit "url") ;; Ok [u]
              else Ok []) ;;
      tl <- scholar_urls rest ;;
      Ok (hd_ ++ tl)
  end.

Definition semantic_search_scholar (http : result Response)
  : result (list value) :=
  try_except
    (response <- http ;;
     _ <- raise_for_status response ;;
     data <- json response ;;
     papers <- py_get data (lit "data") (VList []) ;;
     items <- py_iter papers ;;
     scholar_urls items)
    (fun _ => Ok []).

(** [[r['href'] for r in results if 'href' in r]] *)
Fixpoint ddg_hrefs (results : list value) : result (list value) :=
  match results with
  | [] => Ok []
  | r :: rest =>
      has_href <- py_in (lit "href") r ;;
      hd_ <- (if has_href
              then u <- getitem r (lit "href") ;; Ok [u]
              else Ok []) ;;
      tl <- ddg_hrefs rest ;;
      Ok (hd_ ++ tl)
  end.

(** [for attempt in range(retries)]: [ddgs_text k] is what
    [list(ddgs.text(...))] gives at attempt [k].  An exception anywhere in
    the body of an attempt leads to the next attempt. *)
Fixpoint ddg_attempts (ddgs_text : nat -> result (list value))
  (attempt remaining : nat) : result (list value) :=
  match remaining with
  | O => Ok []
  | S k =>
      match (results <- ddgs_text attempt ;; ddg_hrefs results) with
      | Ok urls => Ok urls
      | Raise _ => ddg_attempts ddgs_text (S attempt) k
      end
  end.

Definition search_duckduckgo (ddgs_text : nat -> result (list value))
  (retries : nat) : result (list value) :=
  ddg_attempts ddgs_text 0 retries.

(** [list(google_search(...))] gives the URLs or raises. *)
Definition search_google (google : result (list str)) : result (list str) :=
  try_except google (fun _ => Ok []).



(** An entry the loop of [search_arvix] keeps. *)
Definition kept (keywords : list str) (entry : str) : bool :=
  has_tags entry && entry_accepted keywords entry.

End Providers.

(** ** The fallback chain over the providers *)

Module Chain.

Inductive provider :=
| Brave
| Arxiv
| SemanticScholar
| DuckDuckGo
| Google.

(** The five search methods of [self], as [robust_search] meets them: a
    query (and [num_results]) to the list the method hands back, or an
    exception.  The methods are annotated [List[str]], and Python does not
    check it: [semantic_search_scholar] hands back the null of a paper
    whose ["url"] is null, [brave_search] any value that is truthy.  So the
    elements are values; an object among them is taken to be no container,
    as [py_in] has it. *)
Record Searchers := {
  brave_search : str -> result (list value);
  search_arvix : str -> nat -> result (list value);
  semantic_search_scholar : str -> nat -> result (list value);
  search_duckduckgo : str -> nat -> result (list value);
  search_google : str -> nat -> result (list value)
}.

(** What the external calls of the five methods answer: [requests.get]
    for the first three, [list(ddgs.text(...))] at each attempt, and
    [list(google_search(...))]. *)
Record Services := {
  brave_get : str -> result Providers.Response;
  arxiv_get : str -> nat -> result Providers.Response;
  scholar_get : str -> nat -> result Providers.Response;
  ddgs_text : str -> nat -> nat -> result (list value);
  google_search : str -> nat -> result (list str)
}.

Definition strs (r : result (list str)) : result (list value) :=
  urls <- r ;; Ok (map VStr urls).

(** The methods of the class over these services; [search_duckduckgo] is
    called with its default of three attempts. *)
Definition searchers (w : Services) : Searchers :=
  {| brave_search := fun q => Providers.brave_search (brave_get w q);
     search_arvix :=
       fun q n => strs (Providers.search_arvix (arxiv_get w q n) q);
     semantic_search_scholar :=
       fun q n => Providers.semantic_search_scholar (scholar_get w q n);
     search_duckduckgo :=
       fun q n => Providers.search_duckduckgo (ddgs_text w q n) 3;
     search_google :=
       fun q n => strs (Providers.search_google (google_search w q n)) |}.

(** The list [search_functions], in the order it is written: each lambda
    with the name of the method it calls. *)
Definition search_functions (self : Searchers) (num_results : nat)
  : list (provider * (str -> result (list value))) :=
  [ (Brave, fun q => brave_search self q);
    (Arxiv, fun q => search_arvix self q num_results);
    (SemanticScholar, fun q => semantic_search_scholar self q num_results);
    (DuckDuckGo, fun q => search_duckduckgo self q num_results);
    (Google, fun q => search_google self q num_results) ].

(** ["arxiv.org/abs/" in url and not self.ARXIV_VALID_REGEX.match(url)]
    for whatever value [url] is: [in] raises on a value that is no
    container, and [match] on a value that is no [str]. *)
Definition malformed (url : value) : result bool :=
  inside <- py_in (lit "arxiv.org/abs/") url ;;
  if inside
  then match url with
       | VStr s => Ok (negb (rmatch ARXIV_VALID_REGEX s))
       | _ => Raise TypeError
       end
  else Ok false.

(** The two messages the method prints: that of a malformed URL, inside
    the [try], and that of an exception, in its handler. *)
Inductive notice :=
| Malformed_url (url : value)
| Unexpected_failure (e : str).

(** What the inner loop keeps of a list of strings. *)
Definition accepted (new_urls : list str) : list str :=
  filter (fun u => negb (malformed_arxiv u)) new_urls.

Section WithConsole.

(** [print]: returns, or raises when the console cannot write the
    message (a character its encoding does not have). *)
Variable print : notice -> result unit.

(** The inner loop: a malformed pre-print URL is announced and skipped, any
    other URL is appended to [urls].  An exception ends the loop; [urls]
    is the one list of the method, so what was appended before the
    exception stays in it.  The result is [urls] and the exception, if
    any. *)
Fixpoint append_accepted (urls new_urls : list value)
  : list value * option str :=
  match new_urls with
  | [] => (urls, None)
  | url :: rest =>
      match malformed url with
      | Ok true =>
          match print (Malformed_url url) with
          | Ok _ => append_accepted urls rest
          | Raise e => (urls, Some e)
          end
      | Ok false => append_accepted (urls ++ [url]) rest
      | Raise e => (urls, Some e)
      end
  end.

(** The outer loop, from one function of the list on; returns what
    [robust_search] returns or raises, and the providers that were called,
    in call order.  The body of the [try] is the call and the inner loop
    and the test of [urls]; the handler prints and the loop goes on, and an
    exception of that [print] leaves the method. *)
Fixpoint search_from (query : str)
  (fns : list (provider * (str -> result (list value))))
  (urls : list value) : result (list value) * list provider :=
  match fns with
  | [] => (Ok urls, [])
  | (name, fn) :: rest =>
      let (urls, raised) :=
        match fn query with
        | Ok new_urls => append_accepted urls new_urls
        | Raise e => (urls, Some e)
        end in
      match raised with
      | None =>
          if nonempty urls then (Ok urls, [name])
          else
            let (r, called) := search_from query rest urls in
            (r, name :: called)
      | Some e =>
          match print (Unexpected_failure e) with
          | Ok _ =>
              let (r, called) := search_from query rest urls in
              (r, name :: called)
          | Raise e' => (Raise e', [name])
          end
      end
  end.

Definition robust_search_trace (self : Searchers) (query : str)
  (num_results : nat) : result (list value) * list provider :=
  search_from query (search_functions self num_results) [].

Definition robust_search (self : Searchers) (query : str) (num_results : nat)
  : result (list value) :=
  fst (robust_search_trace self query num_results).

End WithConsole.

(** A provider that contributes nothing: it raises, or it hands back
    strings of which none is accepted. *)
Definition silent (outcome : result (list value)) : Prop :=
  (exists e, outcome = Raise e)
  \/ (exists new_urls,
        outcome = Ok (map VStr new_urls) /\ accepted new_urls = []).

End Chain.

(** ** Content extraction *)

Module Extract.

Inductive strategy :=
| DirectFetch
| ArticleExtraction
| RenderedPage.

(** A fetched or rendered page: the status of the response and the text of
    each [<p>] element, as [soup.find_all("p")] and [get_text()] give
    them. *)
Record Page := {
  page_status : Z;
  paragraphs : list str
}.

(** What the three external tools do for a URL. *)
Record Web := {
  requests_get : str -> result Page;
  newspaper_article : str -> result str;
  playwright_content : str -> result (list str)
}.

(** ["\n".join(p.get_text() for p in soup.find_all("p")
               if p.get_text().strip())] *)
Definition paragraph_text (ps : list str) : str :=
  join [NL] (filter (fun p => nonempty (strip p)) ps).

(** The first [try] block: [Some] when it returns, [None] when control
    falls out of it (a status other than 200, or an exception). *)
Definition direct_fetch (w : Web) (url : str) : option str :=
  match requests_get w url with
  | Ok page =>
      if (page_status page =? 200)%Z
      then Some (paragraph_text (paragraphs page))
      else None
  | Raise _ => None
  end.

Definition article_extraction (w : Web) (url : str) : option str :=
  match newspaper_article w url with
  | Ok t => Some t
  | Raise _ => None
  end.

Definition rendered_page (w : Web) (url : str) : option str :=
  match playwright_content w url with
  | Ok ps => Some (paragraph_text ps)
  | Raise _ => None
  end.

(** [fetch_full_text], with the strategies it started, in order. *)
Definition fetch_full_text_trace (w : Web) (url : str)
  : str * list strategy :=
  if malformed_arxiv url then ([], [])
  else
    match direct_fetch w url with
    | Some t => (t, [DirectFetch])
    | None =>
        match article_extraction w url with
        | Some t => (t, [DirectFetch; ArticleExtraction])
        | None =>
            match rendered_page w url with
            | Some t => (t, [DirectFetch; ArticleExtraction; RenderedPage])
            | None => ([], [DirectFetch; ArticleExtraction; RenderedPage])
            end
        end
    end.

Definition fetch_full_text (w : Web) (url : str) : str :=
  fst (fetch_full_text_trace w url).



End Extract.

(** ** Ranking and the word budget *)

Definition TRUNCATED : str := [NL; NL] ++ lit "...[TRUNCATED]".

(** [truncate_context]: split on white space, keep the first
    [MAX_WORD_LIMIT] words joined by single spaces, and append the marker
    when words were dropped. *)
Definition truncate_context (text : str) : str :=
  let words := split text in
  join (lit " ") (firstn MAX_WORD_LIMIT words)
  ++ (if MAX_WORD_LIMIT <? length words then TRUNCATED else []).

Module Ranker.

(** [ranked.sort(reverse=True, key=lambda x: x[0])]: descending by score,
    documents of equal score in their original order. *)
Fixpoint insert_desc (x : Q * str) (l : list (Q * str)) : list (Q * str) :=
  match l with
  | [] => [x]
  | y :: l' =>
      if Qle_bool (fst y) (fst x) then x :: l
      else y :: insert_desc x l'
  end.

Fixpoint sort_desc (l : list (Q * str)) : list (Q * str) :=
  match l with
  | [] => []
  | x :: l' => insert_desc x (sort_desc l')
  end.

(** The selection loop with its [break]. *)
Fixpoint select (ranked : list (Q * str)) (selected : list str)
  (total_words : nat) : list str :=
  match ranked with
  | [] => selected
  | (_, doc) :: rest =>
      let words := split doc in
      if MAX_WORD_LIMIT <? total_words + length words then selected
      else select rest (selected ++ [doc]) (total_words + length words)
  end.

(** Descending order of score. *)
Definition desc (a b : Q * str) : Prop := (fst b <= fst a)%Q.

Section WithEmbedder.

(** [util.cos_sim(embedder.encode(query), embedder.encode(doc)).item()]:
    a finite float, taken as the rational it is. *)
Variable cos_sim : str -> str -> Q.

Definition ranked (query : str) (docs : list str) : list (Q * str) :=
  sort_desc (map (fun doc => (cos_sim query doc, doc)) docs).

Definition selected (query : str) (docs : list str) : list str :=
  select (ranked query docs) [] 0.

Definition rank_and_select_contexts (query : str) (docs : list str) : str :=
  join [NL; NL] (selected query docs).

End WithEmbedder.

(** Number of words of a list of documents. *)
Definition total_words (docs : list str) : nat :=
  list_sum (map (fun d => length (split d)) docs).

End Ranker.

(** ** The sub-agent *)

Module Agent.

Record AgentResult := {
  result_text : str;
  sources : list str
}.

(** The prompt template, with [name] and [context] filled in. *)
Definition indent : str := repeat 0x20%N 12.

Definition prompt_invoke (name context : str) : str :=
  [NL] ++ indent ++ lit "You are " ++ name ++ lit ", an expert researcher."
  ++ [NL; NL] ++ indent ++ lit "Here is research content:"
  ++ [NL; NL] ++ indent ++ context
  ++ [NL; NL] ++ indent ++ lit "Write a well-structured content based on this."
  ++ [NL] ++ indent.

Section WithServices.

Variable robust_search : str -> list str.
Variable fetch_full_text : str -> result str.
Variable cos_sim : str -> str -> Q.
Variable llm_ainvoke : str -> result str.

(** The loop over [urls[:2]]: a non-empty content and its URL are kept; an
    empty content, or an exception, keeps nothing. *)
Fixpoint scrape (urls contents sites : list str) : list str * list str :=
  match urls with
  | [] => (contents, sites)
  | url :: rest =>
      match fetch_full_text url with
      | Ok content =>
          if nonempty content
          then scrape rest (contents ++ [content]) (sites ++ [url])
          else scrape rest contents sites
      | Raise _ => scrape rest contents sites
      end
  end.

Definition sub_agent_fn (name query : str) : AgentResult :=
  let urls := robust_search query in
  if negb (nonempty urls)
  then {| result_text := name ++ lit ": No useful links found for query: "
                         ++ query;
          sources := [] |}
  else
    let (contents, sites) := scrape (firstn 2 urls) [] [] in
    if negb (nonempty contents)
    then {| result_text := name ++ lit ": No content scraped for: " ++ query;
            sources := sites |}
    else
      let full_context :=
        Ranker.rank_and_select_contexts cos_sim query contents in
      let safe_context := truncate_context full_context in
      let answer :=
        match llm_ainvoke (prompt_invoke name safe_context) with
        | Ok a => a
        | Raise e => name ++ lit ": LLM failed to respond due to: " ++ e
        end in
      {| result_text := answer; sources := sites |}.

End WithServices.

End Agent.

(** ** The database engine

    [sqlite3] as the methods of [ResearchDatabase] use it: a method opens a
    connection, runs its statements with their parameters bound, and
    commits.  The checks that depend on the values are written out: a
    [str] parameter is encoded in UTF-8, which has nothing for a lone
    surrogate; an [int] parameter is a signed integer of 64 bits; a
    primary key is unique.  What else the engine may object to (a file it
    cannot open, a missing table, a locked database, a full disk) is the
    environment's, and is given stage by stage.  A method that raises has
    committed nothing. *)

Module Sqlite.

Definition UnicodeEncodeError : str := lit "UnicodeEncodeError".
Definition OverflowError : str := lit "OverflowError".
Definition IntegrityError : str := lit "IntegrityError".

(** The environment's part in one call of a method: the exception, if any,
    of [sqlite3.connect], of preparing the [k]-th statement of the method,
    of running it, and of [commit]. *)
Record Engine := {
  connect : option str;
  prepare : nat -> option str;
  step : nat -> option str;
  commit : option str
}.

Definition stage (outcome : option str) : result unit :=
  match outcome with
  | None => Ok tt
  | Some e => Raise e
  end.

(** The engine objects to nothing. *)
Definition performs (eng : Engine) : Prop :=
  connect eng = None
  /\ (forall k, prepare eng k = None)
  /\ (forall k, step eng k = None)
  /\ commit eng = None.

Definition surrogate (c : N) : bool := in_range c (0xD800, 0xDFFF)%N.

(** The text has an encoding in UTF-8. *)
Definition encodable (s : str) : bool := negb (existsb surrogate s).

(** The value, or NULL for [None], has one. *)
Definition encodable_or_null (s : option str) : bool :=
  match s with
  | Some t => encodable t
  | None => true
  end.

Definition int64 (n : Z) : bool :=
  ((- 2 ^ 63 <=? n) && (n <? 2 ^ 63))%Z.

(** Binding one parameter. *)
Definition bind_text (s : str) : result unit :=
  if encodable s then Ok tt else Raise UnicodeEncodeError.

Definition bind_optional (s : option str) : result unit :=
  match s with
  | Some t => bind_text t
  | None => Ok tt
  end.

Definition bind_int (n : Z) : result unit :=
  if int64 n then Ok tt else Raise OverflowError.

(** Binding the parameters of a statement, in their order. *)
Fixpoint bind_all (parameters : list (result unit)) : result unit :=
  match parameters with
  | [] => Ok tt
  | p :: rest => _ <- p ;; bind_all rest
  end.

(** [cursor.execute(sql, parameters)] for the [k]-th statement of a
    method: the statement is prepared, its parameters are bound, and it is
    run. *)
Definition execute (eng : Engine) (k : nat) (parameters : list (result unit))
  : result unit :=
  _ <- stage (prepare eng k) ;;
  _ <- bind_all parameters ;;
  stage (step eng k).

(** [INSERT] into a table whose primary key is [key]: the row goes last;
    a key already there is refused. *)
Definition insert {R} (key : R -> str) (row : R) (table : list R)
  : result (list R) :=
  if existsb (fun r => eqb_str (key r) (key row)) table
  then Raise IntegrityError
  else Ok (table ++ [row]).

(** [SELECT * FROM table WHERE column = ?] *)
Definition select_where {R} (column : R -> str) (v : str) (table : list R)
  : list R :=
  filter (fun r => eqb_str (column r) v) table.

End Sqlite.

(** ** The report store *)

Module Db.

Import Sqlite.

(** A row of the table [final_reports]; [report_data] is the JSON text. *)
Record FinalReport := {
  report_id : str;
  session_id : str;
  structure_id : str;
  report_data : str;
  word_count : nat
}.

(** The loop over [report_data.values()]; the [VStr] case is
    [isinstance(section_content, str)]. *)
Fixpoint count_words (values : list value) (word_count : nat) : nat :=
  match values with
  | [] => word_count
  | section_content :: rest =>
      match section_content with
      | VStr s => count_words rest (word_count + length (split s))
      | _ => count_words rest word_count
      end
  end.

Section WithEncoder.

(** [json.dumps]: the text, or the message of its exception. *)
Variable json_dumps : value -> result str.

(** [save_final_report]: [uuid4] is the identifier [uuid.uuid4()] draws.
    The words are counted, the connection is opened, the parameters are
    evaluated, [json.dumps(report_data)] among them, and the row is
    inserted and committed.  The result is the table after the call, and
    the identifier or the exception. *)
Definition save_final_report (eng : Engine) (final_reports : list FinalReport)
  (uuid4 : str) (session_id structure_id : str)
  (report_data : list (str * value)) : list FinalReport * result str :=
  let report_id := uuid4 in
  let word_count := count_words (map snd report_data) 0 in
  let inserted :=
    _ <- stage (connect eng) ;;
    text <- json_dumps (VDict report_data) ;;
    _ <- execute eng 0
           [ bind_text report_id; bind_text session_id;
             bind_text structure_id; bind_text text;
             bind_int (Z.of_nat word_count) ] ;;
    rows <- insert Db.report_id
              {| report_id := report_id;
                 session_id := session_id;
                 structure_id := structure_id;
                 report_data := text;
                 word_count := word_count |}
              final_reports ;;
    _ <- stage (commit eng) ;;
    Ok rows in
  match inserted with
  | Ok rows => (rows, Ok report_id)
  | Raise e => (final_reports, Raise e)
  end.

End WithEncoder.

(** The number of words of a section value as the claim counts it. *)
Definition words_of (v : value) : nat :=
  match v with
  | VStr s => length (split s)
  | _ => 0
  end.

End Db.

(** ** Reading the organised queries out of a model response *)

Module Queries.

Definition think_end_tag : str := lit "</think>".

(** What follows the first occurrence of [sep] in [s], if there is one. *)
Fixpoint after_first (sep s : str) : option str :=
  if startswith sep s then Some (skipn (length sep) s)
  else match s with
       | [] => None
       | _ :: s' => after_first sep s'
       end.

(** [s.split(sep, 1)[-1]] *)
Definition split1_last (sep s : str) : str :=
  match after_first sep s with
  | Some t => t
  | None => s
  end.

Definition LBRACE : N := 0x7b%N.
Definition RBRACE : N := 0x7d%N.

(** The longest prefix of [s] that ends in [c]: what [.*] followed by [c]
    takes, greedy and with [re.DOTALL]. *)
Fixpoint upto_last (c : N) (s : str) : option str :=
  match s with
  | [] => None
  | x :: s' =>
      match upto_last c s' with
      | Some p => Some (x :: p)
      | None => if (x =? c)%N then Some [x] else None
      end
  end.

(** [re.search(r'\{.*\}', s, re.DOTALL)] and its [group()]: the match at
    the left-most position where the pattern matches. *)
Fixpoint search_braces (s : str) : option str :=
  match s with
  | [] => None
  | x :: s' =>
      if (x =? LBRACE)%N
      then match upto_last RBRACE s' with
           | Some p => Some (x :: p)
           | None => search_braces s'
           end
      else search_braces s'
  end.

Definition no_json_object : str :=
  lit "Could not find a complete JSON object in the response.".

Definition missing_keys : str :=
  lit "JSON missing required keys: 'organizedSearchQueries' or 'searchQueries'".

Section WithDecoder.

(** [json.loads]: the decoded value, or the message of its
    [JSONDecodeError]. *)
Variable json_loads : str -> result value.

(** [str(v)] as an f-string formats a value that is not a [str]. *)
Variable str_of : value -> str.

Definition format (v : value) : str :=
  match v with
  | VStr s => s
  | _ => str_of v
  end.

(** The dictionary built around a flat list of queries. *)
Definition wrapped (topic topic_or_football queries : value) : value :=
  VDict
    [ (lit "topic", topic);
      (lit "organizedSearchQueries",
       VDict
         [ (lit "Introduction",
            VDict
              [ (lit "question",
                 VStr (lit "What is the beginning of "
                       ++ format topic_or_football ++ lit "?"));
                (lit "queries", queries) ]) ]) ].

Definition extract_search_queries (raw_text : str) : result value :=
  let raw_text :=
    if contains think_end_tag raw_text
    then strip (split1_last think_end_tag raw_text)
    else raw_text in
  match search_braces raw_text with
  | None => Raise no_json_object
  | Some group =>
      data <- try_except (json_loads group)
                (fun e => Raise (lit "Invalid JSON: " ++ e)) ;;
      has_organized <- py_in (lit "organizedSearchQueries") data ;;
      if negb has_organized
      then
        has_queries <- py_in (lit "searchQueries") data ;;
        if has_queries
        then
          topic <- py_get data (lit "topic") (VStr []) ;;
          topic_or_football <-
            py_get data (lit "topic") (VStr (lit "football")) ;;
          queries <- getitem data (lit "searchQueries") ;;
          Ok (wrapped topic topic_or_football queries)
        else Raise missing_keys
      else Ok data
  end.

End WithDecoder.

(** The tag at the head of [pre ++ tag ++ post] is the first one: no
    occurrence of the tag begins inside [pre]. *)
Definition first_tag_after (pre post : str) : Prop :=
  forall a b,
    pre ++ think_end_tag ++ post = a ++ think_end_tag ++ b ->
    length pre <= length a.

End Queries.

(** ** The sources of the PDF report and its file name *)

Module Pdf.

Definition section_names : list str :=
  [ lit "Introduction"; lit "Background"; lit "Research Findings";
    lit "Application"; lit "Conclusion" ].

(** [isinstance(v, list)] *)
Definition isinstance_list (v : value) : bool :=
  match v with
  | VList _ => true
  | _ => false
  end.

(** [while len(sources_list) < len(section_names):
       sources_list.append([])], with [missing] appends to go. *)
Fixpoint pad_from (missing : nat) (sources_list : list value) : list value :=
  match missing with
  | O => sources_list
  | S k => pad_from k (sources_list ++ [VList []])
  end.

(** [sources_list] after the test on its shape: the value of the report,
    or five empty lists when that value is not a list of lists. *)
Definition validated (final_report : list (str * value)) : list value :=
  match match lookup (lit "Sources Section") final_report with
        | Some v => v
        | None => VList []
        end with
  | VList l =>
      if existsb (fun s => negb (isinstance_list s)) l
      then map (fun _ => VList []) section_names
      else l
  | _ => map (fun _ => VList []) section_names
  end.

(** [sources_list] when the loop over the sections starts: padded to five. *)
Definition sources_list (final_report : list (str * value)) : list value :=
  pad_from (length section_names - length (validated final_report))
    (validated final_report).

(** [zip(section_names, sources_list)]: the pairs the loop goes through. *)
Definition sources_by_section (final_report : list (str * value))
  : list (str * value) :=
  combine section_names (sources_list final_report).

(** [query.replace(" ", "_")] *)
Definition safe_query (query : str) : str :=
  replace (lit " ") (lit "_") query.

(** The file name, from the query, the time stamp and the six hexadecimal
    digits of the identifier. *)
Definition filename (query timestamp unique_suffix : str) : str :=
  lit "Generated_research_for_" ++ safe_query query ++ lit "_"
  ++ timestamp ++ lit "_" ++ unique_suffix ++ lit ".pdf".

End Pdf.

(** ** The record store

    The tables of [ResearchDatabase] as lists of rows in insertion order,
    which is the order SQLite returns them in when the statement gives
    none.  [CURRENT_TIMESTAMP] is the argument [now]; a time stamp is a
    number of seconds.  Foreign keys are declared and not enforced.  The
    methods run on the engine of [Sqlite]: a method that changes the
    database returns the database after the call, changed or not, and its
    result or exception. *)

Module Store.

Import Sqlite.

Record Session := {
  session_id : str;
  user_id : option str;
  created_at : N;
  last_accessed : N;
  status : str;
  metadata : option str
}.

Record ResearchQuery := {
  query_id : str;
  rq_session_id : str;
  original_query : str;
  generated_queries : str;
  rq_created_at : N
}.

Record ResearchStructure := {
  structure_id : str;
  rs_query_id : str;
  rs_session_id : str;
  structure_data : str;
  rs_created_at : N
}.

Record WorkerResult := {
  result_id : str;
  wr_structure_id : str;
  wr_session_id : str;
  worker_type : str;
  wr_queries : str;
  raw_summaries : str;
  compiled_result : str;
  processing_time : Q;
  wr_created_at : N
}.

Record Database := {
  sessions : list Session;
  research_queries : list ResearchQuery;
  research_structure : list ResearchStructure;
  worker_results : list WorkerResult
}.

(** What [get_session_data] returns, key by key. *)
Record SessionData := {
  sd_session : option Session;
  sd_queries : list ResearchQuery;
  sd_structures : list ResearchStructure;
  sd_worker_results : option WorkerResult;
  sd_reports : list Session
}.

Section WithEncoder.

(** [json.dumps]: the text, or the message of its exception.  In the
    functions below [uuid4] is the identifier [str(uuid.uuid4())] draws. *)
Variable json_dumps : value -> result str.

(** [json.dumps(metadata) if metadata else None] *)
Definition metadata_text (metadata : option (list (str * value)))
  : result (option str) :=
  match metadata with
  | Some (p :: kv) => t <- json_dumps (VDict (p :: kv)) ;; Ok (Some t)
  | _ => Ok None
  end.

Definition create_session (eng : Engine) (db : Database) (uuid4 : str)
  (now : N) (user : option str) (meta : option (list (str * value)))
  : Database * result str :=
  let inserted :=
    _ <- stage (connect eng) ;;
    text <- metadata_text meta ;;
    _ <- execute eng 0
           [bind_text uuid4; bind_optional user; bind_optional text] ;;
    rows <- insert session_id
              {| session_id := uuid4;
                 user_id := user;
                 created_at := now;
                 last_accessed := now;
                 status := lit "active";
                 metadata := text |}
              (sessions db) ;;
    _ <- stage (commit eng) ;;
    Ok rows in
  match inserted with
  | Ok rows =>
      ({| sessions := rows;
          research_queries := research_queries db;
          research_structure := research_structure db;
          worker_results := worker_results db |},
       Ok uuid4)
  | Raise e => (db, Raise e)
  end.

Definition save_research_queries (eng : Engine) (db : Database) (uuid4 : str)
  (now : N) (session original : str) (generated : list str)
  : Database * result str :=
  let inserted :=
    _ <- stage (connect eng) ;;
    text <- json_dumps (VList (map VStr generated)) ;;
    _ <- execute eng 0
           [ bind_text uuid4; bind_text session; bind_text original;
             bind_text text ] ;;
    rows <- insert query_id
              {| query_id := uuid4;
                 rq_session_id := session;
                 original_query := original;
                 generated_queries := text;
                 rq_created_at := now |}
              (research_queries db) ;;
    _ <- stage (commit eng) ;;
    Ok rows in
  match inserted with
  | Ok rows =>
      ({| sessions := sessions db;
          research_queries := rows;
          research_structure := research_structure db;
          worker_results := worker_results db |},
       Ok uuid4)
  | Raise e => (db, Raise e)
  end.

End WithEncoder.

(** [get_session_data]: five statements with the one parameter;
    [fetchone] is the first row, [fetchall] all of them; the last
    statement reads the table [sessions] again. *)
Definition get_session_data (eng : Engine) (db : Database) (session : str)
  : result SessionData :=
  _ <- stage (connect eng) ;;
  _ <- execute eng 0 [bind_text session] ;;
  let session_row := hd_error (select_where session_id session (sessions db)) in
  _ <- execute eng 1 [bind_text session] ;;
  let queries := select_where rq_session_id session (research_queries db) in
  _ <- execute eng 2 [bind_text session] ;;
  let structures :=
    select_where rs_session_id session (research_structure db) in
  _ <- execute eng 3 [bind_text session] ;;
  let worker_result :=
    hd_error (select_where wr_session_id session (worker_results db)) in
  _ <- execute eng 4 [bind_text session] ;;
  let final_report := select_where session_id session (sessions db) in
  Ok {| sd_session := session_row;
        sd_queries := queries;
        sd_structures := structures;
        sd_worker_results := worker_result;
        sd_reports := final_report |}.

(** The row [s] after [SET last_accessed = CURRENT_TIMESTAMP
    WHERE session_id = ?]. *)
Definition touch (now : N) (session : str) (s : Session) : Session :=
  if eqb_str (session_id s) session
  then {| session_id := session_id s;
          user_id := user_id s;
          created_at := created_at s;
          last_accessed := now;
          status := status s;
          metadata := metadata s |}
  else s.

(** [update_session_access] *)
Definition update_session_access (eng : Engine) (db : Database) (now : N)
  (session : str) : Database * result unit :=
  let updated :=
    _ <- stage (connect eng) ;;
    _ <- execute eng 0 [bind_text session] ;;
    stage (commit eng) in
  match updated with
  | Ok _ =>
      ({| sessions := map (touch now session) (sessions db);
          research_queries := research_queries db;
          research_structure := research_structure db;
          worker_results := worker_results db |},
       Ok tt)
  | Raise e => (db, Raise e)
  end.

(** [a] was accessed no earlier than [b]. *)
Definition recent (a b : Session) : Prop :=
  (last_accessed b <= last_accessed a)%N.

(** [ORDER BY last_accessed DESC]; rows of one time stamp are left in the
    order they have. *)
Fixpoint insert_recent (s : Session) (l : list Session) : list Session :=
  match l with
  | [] => [s]
  | t :: l' =>
      if (last_accessed t <=? last_accessed s)%N then s :: l
      else t :: insert_recent s l'
  end.

Fixpoint order_by_recent (l : list Session) : list Session :=
  match l with
  | [] => []
  | s :: l' => insert_recent s (order_by_recent l')
  end.

(** [LIMIT ?]: a negative limit is no limit. *)
Definition limit_rows {R} (limit : Z) (rows : list R) : list R :=
  if (limit <? 0)%Z then rows else firstn (Z.to_nat limit) rows.

(** [user_id = ?] is not true of a row whose [user_id] is NULL. *)
Definition of_user (user : str) (s : Session) : bool :=
  match user_id s with
  | Some u => eqb_str u user
  | None => false
  end.

(** The columns [get_user_session] selects. *)
Definition listed (s : Session) : str * N * N * str :=
  (session_id s, created_at s, last_accessed s, status s).

(** [get_user_session]: the columns [session_id], [created_at],
    [last_accessed] and [status] of the user's sessions, the most recently
    accessed first; the user and the limit are the two parameters. *)
Definition get_user_session (eng : Engine) (db : Database) (user : str)
  (limit : Z) : result (list (str * N * N * str)) :=
  _ <- stage (connect eng) ;;
  _ <- execute eng 0 [bind_text user; bind_int limit] ;;
  Ok (map listed
        (limit_rows limit
           (order_by_recent (filter (of_user user) (sessions db))))).

(** No two sessions share their identifier. *)
Definition unique_sessions (db : Database) : Prop :=
  NoDup (map session_id (sessions db)).

End Store.

(** ** Helpers of the further statements *)

(** The URL gave a content that is not empty. *)
Definition scraped (fetch_full_text : str -> result str) (url : str) : bool :=
  match fetch_full_text url with
  | Ok content => nonempty content
  | Raise _ => false
  end.

(** The value under ["url"] of a Brave result, [None] when there is no such
    key: [r.get("url")]. *)
Definition url_field (r : list (str * value)) : value :=
  match lookup (lit "url") r with
  | Some u => u
  | None => VNone
  end.


(** ** Scenarios

    The concrete inputs the statements below are tried on. *)

(** A text of two words with two spaces between them. *)
Definition two_spaces : str := lit "a  b".

(** A text of 10000 words. *)
Definition ten_thousand_words : str := concat (repeat (lit "ab ") (N.to_nat 10000)).

(** Documents of 6000, 4000 and 500 words, and a similarity that ranks the
    longer document higher. *)
Definition doc_of_words (n : N) : str := concat (repeat (lit "w ") (N.to_nat n)).

Definition by_length (query doc : str) : Q := inject_Z (Z.of_nat (length doc)).

(** Searchers of which the first finds nothing, the second finds two URLs
    and the others would find one more. *)
Definition two_from_second : Chain.Searchers :=
  {| Chain.brave_search := fun _ => Ok [];
     Chain.search_arvix := fun _ _ => Ok [VStr (lit "u1"); VStr (lit "u2")];
     Chain.semantic_search_scholar := fun _ _ => Ok [VStr (lit "u3")];
     Chain.search_duckduckgo := fun _ _ => Ok [VStr (lit "u4")];
     Chain.search_google := fun _ _ => Ok [VStr (lit "u5")] |}.

(** Searchers that find nothing: the first three return no URL, the last
    two raise. *)
Definition none_found : Chain.Searchers :=
  {| Chain.brave_search := fun _ => Ok [];
     Chain.search_arvix := fun _ _ => Ok [];
     Chain.semantic_search_scholar := fun _ _ => Ok [];
     Chain.search_duckduckgo := fun _ _ => Raise (lit "RatelimitException");
     Chain.search_google := fun _ _ => Raise (lit "HTTPError") |}.

(** A console that writes every message. *)
Definition console (m : Chain.notice) : result unit := Ok tt.






Definition no_llm (prompt : str) : result str := Raise (lit "unavailable").

(** A feed with one entry whose identifier continues after the version-less
    abs-page form. *)
Definition trailing_url : str := lit "https://arxiv.org/abs/2301.12345/garbage".

Definition trailing_feed : result Providers.Response :=
  Ok {| Providers.status_code := 200;
        Providers.text :=
          lit "<feed><entry><id>https://arxiv.org/abs/2301.12345/garbage</id><title>Solar cells</title></entry></feed>";
        Providers.json := Raise (lit "JSONDecodeError") |}.

(** A report of two written sections and the list of sources. *)
Definition small_report : list (str * value) :=
  [ (lit "Introduction", VStr (lit "Solar  cells store energy"));
    (lit "Conclusion", VStr [0x20; NL]%N);
    (lit "Sources Section",
     VList [VList [VStr (lit "https://a.example/1")]; VList []]) ].

(** Two documents that fit the budget together, and two of which the
    longer, ranked first, does not fit. *)
Definition small_docs : list str := [doc_of_words 500; doc_of_words 4000].
Definition oversize_docs : list str := [doc_of_words 500; doc_of_words 10000].

(** A page whose paragraphs hold white space only. *)
Definition blank_page : Extract.Web :=
  {| Extract.requests_get := fun _ =>
       Ok {| Extract.page_status := 200;
             Extract.paragraphs := [lit "  "; [NL]; []] |};
     Extract.newspaper_article := fun _ => Ok (lit "Main body text");
     Extract.playwright_content := fun _ => Ok [lit "Rendered text"] |}.

(** Two URLs are found; the first has a text, the second has none. *)
Definition two_links (query : str) : list str :=
  [lit "https://a.example/1"; lit "https://b.example/2"].

Definition first_page_only (url : str) : result str :=
  if eqb_str url (lit "https://a.example/1")
  then Ok (lit "Solar cells store energy")
  else Ok [].

(** A Brave response with three results: one with a URL, one without the
    key, one with an empty URL. *)
Definition brave_items : list (list (str * value)) :=
  [ [(lit "title", VStr (lit "A")); (lit "url", VStr (lit "https://a.example/1"))];
    [(lit "title", VStr (lit "B"))];
    [(lit "url", VStr [])] ].

Definition brave_body : list (str * value) :=
  [ (lit "type", VStr (lit "search"));
    (lit "web", VDict [(lit "results", VList (map VDict brave_items))]) ].

Definition brave_response : Providers.Response :=
  {| Providers.status_code := 200;
     Providers.text := [];
     Providers.json := Ok (VDict brave_body) |}.

(** A Semantic Scholar response with three papers: one with a URL, one
    without the key, one whose URL is null. *)
Definition scholar_papers : list (list (str * value)) :=
  [ [(lit "title", VStr (lit "A")); (lit "url", VStr (lit "https://a.example/1"))];
    [(lit "title", VStr (lit "B"))];
    [(lit "url", VNone)] ].

Definition scholar_response : Providers.Response :=
  {| Providers.status_code := 200;
     Providers.text := [];
     Providers.json :=
       Ok (VDict [(lit "total", VInt 3);
                  (lit "data", VList (map VDict scholar_papers))]) |}.



(** JSON texts, a decoder that knows them, and a model response that
    reasons before it answers. *)
Definition quoted (s : str) : str := [0x22%N] ++ s ++ [0x22%N].

Definition flat_json : str :=
  lit "{" ++ quoted (lit "searchQueries") ++ lit ": ["
  ++ quoted (lit "solar storage") ++ lit "]}".

Definition organized_json : str :=
  lit "{" ++ quoted (lit "organizedSearchQueries") ++ lit ": {}}".

Definition flat_queries : value := VList [VStr (lit "solar storage")].

Definition toy_loads (s : str) : result value :=
  if eqb_str s flat_json
  then Ok (VDict [(lit "searchQueries", flat_queries)])
  else if eqb_str s organized_json
       then Ok (VDict [(lit "organizedSearchQueries", VDict [])])
       else Raise (lit "Expecting value").

Definition toy_str (v : value) : str := lit "?".

Definition reasoning : str := lit "<think>Maybe {a} or {b}? ".

(** A report whose sources are not a list of lists. *)
Definition bad_sources_report : list (str * value) :=
  [ (lit "Introduction", VStr (lit "Solar cells"));
    (lit "Sources Section",
     VList [VList [VStr (lit "https://a.example/1")];
            VStr (lit "https://b.example/2")]) ].

(** A store with two sessions of one user and a session without user. *)
(** An encoder for the scenarios.  As [json.dumps] does, it has no
    encoding for an object and raises a [TypeError]; for every other value
    its text stands for the encoding. *)
Fixpoint has_object (v : value) : bool :=
  match v with
  | VObject => true
  | VList l => existsb has_object l
  | VDict kv => existsb (fun p => has_object (snd p)) kv
  | _ => false
  end.

Definition toy_dumps (v : value) : result str :=
  if has_object v then Raise TypeError else Ok (lit "[]").

(** A text that is one lone surrogate, as a JSON escape can give it. *)
Definition lone_surrogate : str := [0xD800%N].

(** An engine that objects to nothing. *)
Definition quiet : Sqlite.Engine :=
  {| Sqlite.connect := None;
     Sqlite.prepare := fun _ => None;
     Sqlite.step := fun _ => None;
     Sqlite.commit := None |}.

(** A report of which one section is still the message object of the
    model, not its text. *)
Definition message_report : list (str * value) :=
  [ (lit "Introduction", VStr (lit "Solar cells store energy"));
    (lit "Summary", VObject) ].

Definition session_of (id : str) (user : option str) (accessed : N)
  : Store.Session :=
  {| Store.session_id := id;
     Store.user_id := user;
     Store.created_at := 100;
     Store.last_accessed := accessed;
     Store.status := lit "active";
     Store.metadata := None |}.

Definition small_store : Store.Database :=
  {| Store.sessions :=
       [ session_of (lit "s1") (Some (lit "ann")) 100;
         session_of (lit "s2") (Some (lit "ann")) 200;
         session_of (lit "s3") None 300 ];
     Store.research_queries := [];
     Store.research_structure := [];
     Store.worker_results := [] |}.

(** Services of which Brave and arXiv cannot be reached, Semantic Scholar
    answers with its three papers, one of them with a null URL, and the
    two web searches would each find one page. *)
Definition null_url_services : Chain.Services :=
  {| Chain.brave_get := fun _ => Raise (lit "ConnectionError");
     Chain.arxiv_get := fun _ _ => Raise (lit "ConnectionError");
     Chain.scholar_get := fun _ _ => Ok scholar_response;
     Chain.ddgs_text :=
       fun _ _ _ =>
         Ok [VDict [(lit "href", VStr (lit "https://b.example/2"))]];
     Chain.google_search := fun _ _ => Ok [lit "https://c.example/3"] |}.

(** A console in UTF-8: it cannot write a lone surrogate. *)
Definition strict_console (m : Chain.notice) : result unit :=
  match m with
  | Chain.Malformed_url (VStr s) =>
      if Sqlite.encodable s then Ok tt else Raise Sqlite.UnicodeEncodeError
  | Chain.Malformed_url _ => Ok tt
  | Chain.Unexpected_failure e =>
      if Sqlite.encodable e then Ok tt else Raise Sqlite.UnicodeEncodeError
  end.

(** Searchers of which the first finds a page, a malformed pre-print URL
    with a lone surrogate in it, and another page; the others find
    nothing. *)
Definition surrogate_url_first : Chain.Searchers :=
  {| Chain.brave_search :=
       fun _ =>
         Ok [ VStr (lit "https://a.example/1");
              VStr (lit "http://arxiv.org/abs/" ++ lone_surrogate);
              VStr (lit "https://b.example/2") ];
     Chain.search_arvix := fun _ _ => Ok [];
     Chain.semantic_search_scholar := fun _ _ => Ok [];
     Chain.search_duckduckgo := fun _ _ => Ok [];
     Chain.search_google := fun _ _ => Ok [] |}.

(** * Properties *)

(** *** Facts on [split] and [join] *)

Section SplitJoin.

Lemma split_cons_space c s : isspace c = true -> split (c :: s) = split s.
Proof. intros H; simpl; now rewrite H. Qed.

Lemma split_head_nonspace c s : isspace c = false -> split (c :: s) <> [].
Proof.
  intros H; simpl; rewrite H.
  destruct s as [|c' s']; [discriminate|].
  destruct (isspace c'); [discriminate|].
  destruct (split (c' :: s')); discriminate.
Qed.

Lemma split_all_space sep s : all_space sep = true -> split (sep ++ s) = split s.
Proof.
  induction sep as [|c sep IH]; simpl; [reflexivity|].
  intros H; apply andb_prop in H as [Hc Hs].
  rewrite Hc; auto.
Qed.

(** White space between two texts separates their words. *)
Lemma split_app_sep a sep b :
  sep <> [] -> all_space sep = true ->
  split (a ++ sep ++ b) = split a ++ split b.
Proof.
  intros Hne Hsp.
  induction a as [|c a IH].
  - simpl; now apply split_all_space.
  - destruct (isspace c) eqn:Hc.
    + rewrite <- app_comm_cons, !split_cons_space by assumption; exact IH.
    + destruct a as [|c' a'].
      * destruct sep as [|d sep']; [congruence|].
        simpl in Hsp; apply andb_prop in Hsp as [Hd Hsp'].
        change (([c] ++ (d :: sep') ++ b)) with (c :: d :: sep' ++ b).
        cbn [split]; rewrite Hc, Hd.
        fold (split (sep' ++ b)).
        now rewrite (split_all_space _ _ Hsp').
      * change ((c :: c' :: a') ++ sep ++ b) with (c :: (c' :: a') ++ sep ++ b).
        assert (E1 : split (c :: (c' :: a') ++ sep ++ b)
                     = if isspace c' then [c] :: split ((c' :: a') ++ sep ++ b)
                       else match split ((c' :: a') ++ sep ++ b) with
                            | w :: ws => (c :: w) :: ws
                            | [] => [[c]]
                            end).
        { cbn [split app]; rewrite Hc; reflexivity. }
        assert (E2 : split (c :: c' :: a')
                     = if isspace c' then [c] :: split (c' :: a')
                       else match split (c' :: a') with
                            | w :: ws => (c :: w) :: ws
                            | [] => [[c]]
                            end).
        { cbn [split]; rewrite Hc; reflexivity. }
        rewrite E1, E2, IH.
        destruct (isspace c') eqn:Hc'; [reflexivity|].
        pose proof (split_head_nonspace _ a' Hc') as Hn.
        destruct (split (c' :: a')); [congruence|reflexivity].
Qed.

Lemma split_word w : is_word w = true -> split w = [w].
Proof.
  induction w as [|c w IH]; [discriminate|].
  intros H; simpl in H; apply andb_prop in H as [Hc Hw].
  apply negb_true_iff in Hc.
  destruct w as [|c' w'].
  - simpl; now rewrite Hc.
  - assert (Hw' : is_word (c' :: w') = true) by exact Hw.
    specialize (IH Hw').
    simpl in Hw; apply andb_prop in Hw as [Hc' _].
    apply negb_true_iff in Hc'.
    change (split (c :: c' :: w'))
      with (if isspace c then split (c' :: w')
            else if isspace c' then [c] :: split (c' :: w')
                 else match split (c' :: w') with
                      | w :: ws => (c :: w) :: ws
                      | [] => [[c]]
                      end).
    now rewrite Hc, Hc', IH.
Qed.

Lemma split_words s : Forall (fun w => is_word w = true) (split s).
Proof.
  induction s as [|c s IH]; [constructor|].
  destruct (isspace c) eqn:Hc.
  - now rewrite split_cons_space.
  - destruct s as [|c' s'].
    + simpl; rewrite Hc; repeat constructor; simpl; now rewrite Hc.
    + change (split (c :: c' :: s'))
        with (if isspace c then split (c' :: s')
              else if isspace c' then [c] :: split (c' :: s')
                   else match split (c' :: s') with
                        | w :: ws => (c :: w) :: ws
                        | [] => [[c]]
                        end).
      rewrite Hc.
      destruct (isspace c') eqn:Hc'.
      * constructor; [simpl; now rewrite Hc | exact IH].
      * destruct (split (c' :: s')) as [|w ws].
        -- repeat constructor; simpl; now rewrite Hc.
        -- inversion IH as [|? ? Hw Hws]; subst.
           constructor; [|exact Hws].
           simpl; rewrite Hc; simpl.
           destruct w; [discriminate|exact Hw].
Qed.

Lemma space_sep : lit " " <> [] /\ all_space (lit " ") = true.
Proof. split; [discriminate|reflexivity]. Qed.

(** Joining words by single spaces and splitting again gives the words back. *)
Lemma split_join ws :
  Forall (fun w => is_word w = true) ws -> split (join (lit " ") ws) = ws.
Proof.
  induction ws as [|w ws IH]; [reflexivity|].
  intros H; inversion H as [|? ? Hw Hws]; subst.
  destruct ws as [|w2 ws'].
  - simpl; now apply split_word.
  - change (join (lit " ") (w :: w2 :: ws'))
      with (w ++ lit " " ++ join (lit " ") (w2 :: ws')).
    destruct space_sep as [Hne Hsp].
    rewrite (split_app_sep _ _ _ Hne Hsp), (split_word _ Hw), (IH Hws).
    reflexivity.
Qed.

Lemma Forall_firstn {A} (P : A -> Prop) n (l : list A) :
  Forall P l -> Forall P (firstn n l).
Proof.
  intros H; revert n; induction H; intros [|n]; simpl; constructor; auto.
Qed.

Lemma split_marked ws :
  Forall (fun w => is_word w = true) ws ->
  split (join (lit " ") ws ++ TRUNCATED) = ws ++ [lit "...[TRUNCATED]"].
Proof.
  intros H; unfold TRUNCATED.
  rewrite split_app_sep by (discriminate || reflexivity).
  rewrite (split_join _ H); f_equal.
Qed.

End SplitJoin.

(** ** Patterns and their matcher *)

Module RegexFacts.

Lemma nullable_lang r : nullable r = true <-> lang r [].
Proof.
  split.
  - induction r; simpl; intros H; try discriminate.
    + constructor.
    + apply andb_prop in H as [H1 H2].
      change (@nil N) with (@nil N ++ []); constructor; auto.
    + apply orb_prop in H as [H|H]; [apply L_alt_l|apply L_alt_r]; auto.
    + constructor.
  - intros H; remember [] as s eqn:E.
    induction H; simpl; try discriminate; try reflexivity.
    + apply app_eq_nil in E as [-> ->].
      rewrite IHlang1, IHlang2; reflexivity.
    + now rewrite IHlang.
    + rewrite IHlang by assumption; apply orb_true_r.
Qed.

Lemma deriv_sound c r : forall s, lang (deriv c r) s -> lang r (c :: s).
Proof.
  induction r; simpl; intros s H.
  - inversion H.
  - inversion H.
  - destruct (c =? c0)%N eqn:E; inversion H; subst.
    apply N.eqb_eq in E; subst; constructor.
  - destruct (isdecimal c) eqn:E; inversion H; subst.
    now constructor.
  - destruct (nullable r1) eqn:E.
    + inversion H as [| | | | ? ? ? H'| ? ? ? H'| |]; subst.
      * inversion H'; subst.
        rewrite app_comm_cons; constructor; auto.
      * change (c :: s) with ([] ++ c :: s); constructor; auto.
        now apply nullable_lang.
    + inversion H; subst.
      rewrite app_comm_cons; constructor; auto.
  - inversion H; subst; [apply L_alt_l|apply L_alt_r]; auto.
  - inversion H; subst.
    rewrite app_comm_cons; constructor; auto.
Qed.

Lemma deriv_complete r s0 :
  lang r s0 -> forall c s, s0 = c :: s -> lang (deriv c r) s.
Proof.
  induction 1 as [ | d | d Hd | r1 r2 s1 s2 H1 IH1 H2 IH2
                 | r1 r2 s1 H1 IH1 | r1 r2 s1 H1 IH1
                 | r1 | r1 s1 s2 H1 IH1 H2 IH2 ];
    intros c s E; simpl.
  - discriminate.
  - injection E as -> <-; rewrite N.eqb_refl; constructor.
  - injection E as -> <-; rewrite Hd; constructor.
  - destruct s1 as [|c1 s1'].
    + simpl in E; apply nullable_lang in H1; rewrite H1.
      apply L_alt_r; auto.
    + injection E as -> <-.
      assert (L : lang (Seq (deriv c r1) r2) (s1' ++ s2))
        by (constructor; auto).
      destruct (nullable r1); [apply L_alt_l|]; exact L.
  - apply L_alt_l; auto.
  - apply L_alt_r; auto.
  - discriminate.
  - destruct s1 as [|c1 s1'].
    + simpl in E; exact (IH2 _ _ E).
    + injection E as -> <-; constructor; auto.
Qed.

Lemma deriv_lang c r s : lang (deriv c r) s <-> lang r (c :: s).
Proof.
  split; [apply deriv_sound | intros H; eapply deriv_complete; eauto].
Qed.

(** [fullmatch] decides the language of the pattern. *)
Lemma fullmatch_lang s : forall r, fullmatch r s = true <-> lang r s.
Proof.
  induction s as [|c s IH]; intros r; simpl.
  - apply nullable_lang.
  - rewrite IH; apply deriv_lang.
Qed.

(** [rmatch] succeeds exactly when some prefix is in the language. *)
Lemma rmatch_lang s : forall r,
  rmatch r s = true <-> exists p t, s = p ++ t /\ lang r p.
Proof.
  induction s as [|c s IH]; intros r; simpl.
  - rewrite orb_false_r, nullable_lang; split.
    + intros H; exists [], []; auto.
    + intros (p & t & E & H).
      symmetry in E; apply app_eq_nil in E as [-> _]; exact H.
  - split.
    + intros H; apply orb_prop in H as [H|H].
      * exists [], (c :: s); split; [reflexivity|now apply nullable_lang].
      * apply IH in H as (p & t & -> & H).
        exists (c :: p), t; split; [reflexivity|now apply deriv_lang].
    + intros (p & t & E & H).
      destruct p as [|c' p].
      * apply nullable_lang in H; now rewrite H.
      * injection E as <- ->.
        apply orb_true_iff; right.
        apply IH; exists p, t; split; [reflexivity|now apply deriv_lang].
Qed.

(** *** The derived forms *)

Lemma lang_seq r1 r2 s :
  lang (Seq r1 r2) s <-> exists a b, s = a ++ b /\ lang r1 a /\ lang r2 b.
Proof.
  split.
  - intros H; inversion H; subst; eauto.
  - intros (a & b & -> & H1 & H2); now constructor.
Qed.

Lemma lang_chr c s : lang (Chr c) s <-> s = [c].
Proof.
  split; [intros H; now inversion H | intros ->; constructor].
Qed.

Lemma lang_eps s : lang Eps s <-> s = [].
Proof.
  split; [intros H; now inversion H | intros ->; constructor].
Qed.

Lemma lang_opt r s : lang (Opt r) s <-> s = [] \/ lang r s.
Proof.
  unfold Opt; split.
  - intros H; inversion H; subst; [now right|left; now apply lang_eps].
  - intros [->|H]; [apply L_alt_r; constructor|now apply L_alt_l].
Qed.

Lemma lang_str lit_ s : lang (Str lit_) s <-> s = lit_.
Proof.
  revert s; induction lit_ as [|c l IH]; intros s; simpl.
  - apply lang_eps.
  - rewrite lang_seq; split.
    + intros (a & b & -> & Ha & Hb).
      apply lang_chr in Ha; apply IH in Hb; subst; reflexivity.
    + intros ->; exists [c], l; repeat split; [constructor|now apply IH].
Qed.

Lemma lang_digit s : lang Digit s <-> exists c, s = [c] /\ isdecimal c = true.
Proof.
  split.
  - intros H; inversion H; subst; eauto.
  - intros (c & -> & H); now constructor.
Qed.

Lemma lang_rep_digit n : forall s,
  lang (Rep n Digit) s <-> digits n s.
Proof.
  unfold digits; induction n as [|n IH]; intros s; simpl.
  - rewrite lang_eps; split.
    + intros ->; auto.
    + intros [H _]; now apply length_zero_iff_nil.
  - rewrite lang_seq; split.
    + intros (a & b & -> & Ha & Hb).
      apply lang_digit in Ha as (c & -> & Hc).
      apply IH in Hb as [Hl Hd]; simpl; rewrite Hl, Hc, Hd; auto.
    + intros [Hl Hd].
      destruct s as [|c s]; [discriminate|].
      simpl in Hd; apply andb_prop in Hd as [Hc Hd].
      exists [c], s; repeat split.
      * now constructor.
      * apply IH; split; [now injection Hl|exact Hd].
Qed.

Lemma lang_star_digit s :
  lang (Star Digit) s <-> forallb isdecimal s = true.
Proof.
  split.
  - intros H; remember (Star Digit) as r eqn:E.
    induction H; try discriminate; [reflexivity|].
    injection E as ->.
    apply lang_digit in H as (c & -> & Hc).
    simpl; rewrite Hc; auto.
  - induction s as [|c s IH]; simpl; intros H; [constructor|].
    apply andb_prop in H as [Hc Hs].
    change (c :: s) with ([c] ++ s); constructor; [now constructor|auto].
Qed.

Lemma lang_plus_digit s :
  lang (Plus Digit) s <-> s <> [] /\ forallb isdecimal s = true.
Proof.
  unfold Plus; rewrite lang_seq; split.
  - intros (a & b & -> & Ha & Hb).
    apply lang_digit in Ha as (c & -> & Hc).
    apply lang_star_digit in Hb.
    split; [discriminate|simpl; now rewrite Hc].
  - intros [Hne H].
    destruct s as [|c s]; [congruence|].
    simpl in H; apply andb_prop in H as [Hc Hs].
    exists [c], s; repeat split;
      [now constructor | now apply lang_star_digit].
Qed.

(** The pattern of the source describes the strict form of the
    specification. *)
Lemma arxiv_regex_strict url :
  lang ARXIV_VALID_REGEX url <-> strict_abs_page url.
Proof.
  unfold ARXIV_VALID_REGEX, strict_abs_page; split.
  - intros H.
    apply lang_seq in H as (a1 & b1 & -> & H1 & H).
    apply lang_seq in H as (a2 & b2 & -> & H2 & H).
    apply lang_seq in H as (a3 & b3 & -> & H3 & H).
    apply lang_seq in H as (a4 & b4 & -> & H4 & H).
    apply lang_seq in H as (a5 & b5 & -> & H5 & H).
    apply lang_seq in H as (a6 & b6 & -> & H6 & H7).
    apply lang_str in H1, H3; apply lang_chr in H5; subst.
    apply lang_rep_digit in H4, H6.
    exists (lit "http" ++ a2), a4, a6, b6.
    split; [now rewrite <- !app_assoc|].
    split.
    { apply lang_opt in H2 as [->|H2]; [now left|].
      apply lang_chr in H2; subst; now right. }
    split; [exact H4|split; [exact H6|]].
    apply lang_opt in H7 as [->|H7]; [now left|right].
    apply lang_seq in H7 as (v & ds & -> & Hv & Hds).
    apply lang_chr in Hv; subst.
    apply lang_plus_digit in Hds as [Hne Hd].
    exists ds; auto.
  - intros (scheme & d4 & d5 & ver & -> & Hs & H4 & H5 & Hv).
    assert (E : exists s, scheme = lit "http" ++ s /\ lang (Opt (Chr 0x73)) s).
    { destruct Hs as [->| ->].
      - exists []; split; [reflexivity|apply lang_opt; now left].
      - exists [0x73%N]; split; [reflexivity|].
        apply lang_opt; right; constructor. }
    destruct E as (s & -> & Hopt).
    rewrite <- app_assoc.
    constructor; [now apply lang_str|].
    constructor; [exact Hopt|].
    constructor; [now apply lang_str|].
    constructor; [now apply lang_rep_digit|].
    change (lit "." ++ d5 ++ ver) with ([0x2e%N] ++ d5 ++ ver).
    constructor; [constructor|].
    constructor; [now apply lang_rep_digit|].
    apply lang_opt.
    destruct Hv as [->|(ds & -> & Hne & Hd)]; [now left|right].
    change (lit "v" ++ ds) with ([0x76%N] ++ ds).
    constructor; [constructor|now apply lang_plus_digit].
Qed.

(** [ARXIV_VALID_REGEX.match(url)]: the URL begins with a strict abs-page
    URL. *)
Lemma arxiv_match_prefix url :
  rmatch ARXIV_VALID_REGEX url = true
  <-> exists p rest, url = p ++ rest /\ strict_abs_page p.
Proof.
  rewrite rmatch_lang; split; intros (p & t & E & H); exists p, t;
    (split; [exact E|now apply arxiv_regex_strict]).
Qed.

Lemma arxiv_fullmatch_strict url :
  fullmatch ARXIV_VALID_REGEX url = true <-> strict_abs_page url.
Proof. rewrite fullmatch_lang; apply arxiv_regex_strict. Qed.

End RegexFacts.

(** ** [truncate_context] *)

Section Truncate.

Let is_words (ws : list str) : Prop := Forall (fun w => is_word w = true) ws.

(** The body of [truncate_context] at any limit [n]. *)
Let cut (n : nat) (text : str) : str :=
  join (lit " ") (firstn n (split text))
  ++ (if n <? length (split text) then TRUNCATED else []).

Lemma cut_short n text :
  length (split text) <= n -> cut n text = join (lit " ") (split text).
Proof.
  intros H; unfold cut.
  rewrite firstn_all2 by exact H.
  apply Nat.ltb_ge in H; rewrite H.
  apply app_nil_r.
Qed.

Lemma cut_long n text :
  n < length (split text) ->
  cut n text = join (lit " ") (firstn n (split text)) ++ TRUNCATED.
Proof.
  intros H; unfold cut.
  apply Nat.ltb_lt in H; now rewrite H.
Qed.

Lemma cut_joined n ws :
  is_words ws -> length ws <= n ->
  cut n (join (lit " ") ws) = join (lit " ") ws.
Proof.
  intros Hw Hn.
  rewrite cut_short; rewrite (split_join _ Hw); auto.
Qed.

Lemma cut_marked n ws :
  is_words ws -> length ws = n ->
  cut n (join (lit " ") ws ++ TRUNCATED) = join (lit " ") ws ++ TRUNCATED.
Proof.
  intros Hw Hn.
  rewrite cut_long; rewrite (split_marked _ Hw).
  - rewrite firstn_app, Hn, Nat.sub_diag, firstn_O, app_nil_r.
    rewrite firstn_all2 by lia; reflexivity.
  - rewrite length_app; simpl; lia.
Qed.

Lemma cut_idempotent n text : cut n (cut n text) = cut n text.
Proof.
  destruct (Nat.le_gt_cases (length (split text)) n) as [H|H].
  - rewrite (cut_short _ _ H).
    apply cut_joined; [apply split_words | exact H].
  - rewrite (cut_long _ _ H).
    apply cut_marked.
    + apply Forall_firstn, split_words.
    + apply firstn_length_le; lia.
Qed.

Lemma truncate_context_cut text : truncate_context text = cut MAX_WORD_LIMIT text.
Proof. reflexivity. Qed.

(** C1, as amended.  A text of at most 9000 words comes back as its words
    joined by single spaces, which is the text itself when the text is
    already written that way; a text of more than 9000 words comes back as
    its first 9000 words joined by single spaces, followed by the marker. *)
Theorem truncate_context_spec text :
  (length (split text) <= MAX_WORD_LIMIT ->
     truncate_context text = join (lit " ") (split text))
  /\ (MAX_WORD_LIMIT < length (split text) ->
     truncate_context text
     = join (lit " ") (firstn MAX_WORD_LIMIT (split text)) ++ TRUNCATED)
  /\ (forall ws, Forall (fun w => is_word w = true) ws ->
        length ws <= MAX_WORD_LIMIT ->
        text = join (lit " ") ws -> truncate_context text = text).
Proof.
  rewrite truncate_context_cut.
  split; [apply cut_short|split; [apply cut_long|]].
  intros ws Hw Hn ->; now apply cut_joined.
Qed.

(** C7.  Truncating twice is truncating once; in particular the output for
    a text of 10000 words is its first 9000 words and the marker, and
    truncating that output gives it back. *)
Theorem truncate_context_idempotent text :
  truncate_context (truncate_context text) = truncate_context text
  /\ (length (split text) = N.to_nat 10000 ->
      let out := join (lit " ") (firstn MAX_WORD_LIMIT (split text))
                 ++ TRUNCATED in
      truncate_context text = out /\ truncate_context out = out).
Proof.
  rewrite !truncate_context_cut.
  split; [apply cut_idempotent|].
  intros H out.
  assert (Hlt : MAX_WORD_LIMIT < length (split text)).
  { rewrite H; apply Nat.ltb_lt; vm_compute; reflexivity. }
  assert (E : cut MAX_WORD_LIMIT text = out) by (apply cut_long; exact Hlt).
  split; [exact E|].
  rewrite <- E, truncate_context_cut; apply cut_idempotent.
Qed.

End Truncate.

(** C1 as stated fails: a text within the budget is not returned
    unchanged when its white space is not single spaces. *)
Lemma truncate_context_rewrites_white_space :
  length (split two_spaces) <= MAX_WORD_LIMIT
  /\ truncate_context two_spaces = lit "a b"
  /\ truncate_context two_spaces <> two_spaces.
Proof.
  split; [apply Nat.leb_le; vm_compute; reflexivity|].
  split; [vm_compute; reflexivity|].
  vm_compute; discriminate.
Qed.

Lemma truncate_context_spec_witness :
  length (split (lit "a b")) <= MAX_WORD_LIMIT
  /\ truncate_context (lit "a b") = lit "a b"
  /\ MAX_WORD_LIMIT < length (split ten_thousand_words)
  /\ truncate_context ten_thousand_words
     = join (lit " ") (firstn MAX_WORD_LIMIT (split ten_thousand_words))
       ++ TRUNCATED.
Proof.
  assert (H1 : length (split (lit "a b")) <= MAX_WORD_LIMIT)
    by (apply Nat.leb_le; vm_compute; reflexivity).
  assert (H2 : MAX_WORD_LIMIT < length (split ten_thousand_words))
    by (apply Nat.ltb_lt; vm_compute; reflexivity).
  split; [exact H1|].
  split.
  - apply (proj2 (proj2 (truncate_context_spec (lit "a b"))) [lit "a"; lit "b"]).
    + repeat constructor.
    + exact H1.
    + reflexivity.
  - split; [exact H2|].
    exact (proj1 (proj2 (truncate_context_spec ten_thousand_words)) H2).
Defined.

Lemma truncate_context_idempotent_witness :
  length (split ten_thousand_words) = N.to_nat 10000
  /\ truncate_context (truncate_context ten_thousand_words)
     = truncate_context ten_thousand_words.
Proof.
  assert (H : length (split ten_thousand_words) = N.to_nat 10000)
    by (vm_compute; reflexivity).
  split; [exact H|].
  destruct (truncate_context_idempotent ten_thousand_words) as [_ Hp].
  destruct (Hp H) as [E1 E2].
  rewrite E1; exact E2.
Defined.

(** ** [rank_and_select_contexts] *)

Module RankerFacts.

Import Ranker.

Lemma insert_desc_perm x l : Permutation (insert_desc x l) (x :: l).
Proof.
  induction l as [|y l IH]; simpl; [apply Permutation_refl|].
  destruct (Qle_bool (fst y) (fst x)); [apply Permutation_refl|].
  eapply perm_trans; [apply perm_skip, IH | apply perm_swap].
Qed.

Lemma sort_desc_perm l : Permutation (sort_desc l) l.
Proof.
  induction l as [|x l IH]; simpl; [constructor|].
  eapply perm_trans; [apply insert_desc_perm | apply perm_skip, IH].
Qed.

Lemma insert_desc_sorted x l :
  StronglySorted desc l -> StronglySorted desc (insert_desc x l).
Proof.
  induction 1 as [|y l Hs IH Hy]; simpl; [repeat constructor|].
  destruct (Qle_bool (fst y) (fst x)) eqn:E.
  - apply Qle_bool_iff in E.
    constructor; [constructor; assumption|].
    constructor; [exact E|].
    eapply Forall_impl; [|exact Hy].
    intros z Hz; unfold desc in *; eapply Qle_trans; eassumption.
  - constructor; [exact IH|].
    assert (Hxy : desc y x).
    { unfold desc; apply Qlt_le_weak, Qnot_le_lt.
      intros H; apply Qle_bool_iff in H; congruence. }
    eapply Permutation_Forall.
    + apply Permutation_sym, insert_desc_perm.
    + constructor; assumption.
Qed.

Lemma sort_desc_sorted l : StronglySorted desc (sort_desc l).
Proof.
  induction l; simpl; [constructor | now apply insert_desc_sorted].
Qed.

(** The loop only ever appends to [selected]. *)
Lemma select_app r : forall sel tw, select r sel tw = sel ++ select r [] tw.
Proof.
  induction r as [|[s d] r IH]; intros sel tw; simpl.
  - now rewrite app_nil_r.
  - destruct (MAX_WORD_LIMIT <? tw + length (split d)).
    + now rewrite app_nil_r.
    + rewrite (IH (sel ++ [d])), (IH [d]), <- app_assoc; reflexivity.
Qed.

Lemma total_words_app a b :
  total_words (a ++ b) = total_words a + total_words b.
Proof. unfold total_words; now rewrite map_app, list_sum_app. Qed.

(** The running total stays within the budget. *)
Lemma select_budget r : forall tw,
  tw <= MAX_WORD_LIMIT -> tw + total_words (select r [] tw) <= MAX_WORD_LIMIT.
Proof.
  induction r as [|[s d] r IH]; intros tw Htw; simpl.
  - unfold total_words; simpl; lia.
  - destruct (MAX_WORD_LIMIT <? tw + length (split d)) eqn:E.
    + unfold total_words; simpl; lia.
    + apply Nat.ltb_ge in E.
      rewrite select_app, total_words_app.
      specialize (IH _ E).
      unfold total_words at 1; simpl; lia.
Qed.

(** The selection is a prefix of the ranking, cut at the first document
    that does not fit. *)
Lemma select_prefix r : forall tw,
  exists rest,
    map snd r = select r [] tw ++ rest
    /\ forall d rest', rest = d :: rest' ->
         MAX_WORD_LIMIT < tw + total_words (select r [] tw) + length (split d).
Proof.
  induction r as [|[s d] r IH]; intros tw; simpl.
  - exists []; split; [reflexivity|discriminate].
  - destruct (MAX_WORD_LIMIT <? tw + length (split d)) eqn:E.
    + exists (d :: map snd r); split; [reflexivity|].
      intros d' rest' [= <- _].
      apply Nat.ltb_lt in E; unfold total_words; simpl; lia.
    + destruct (IH (tw + length (split d))) as (rest & E1 & E2).
      exists rest; rewrite select_app; split.
      * simpl; now rewrite E1.
      * intros d' rest' Hr; specialize (E2 _ _ Hr).
        rewrite total_words_app; unfold total_words at 1; simpl; lia.
Qed.

Lemma total_words_cons d l :
  total_words (d :: l) = length (split d) + total_words l.
Proof. reflexivity. Qed.

(** Only one beginning of a list of documents fits the budget and is
    followed by a document that does not. *)
Lemma budget_prefix_unique (a : list str) : forall b ra rb tw,
  a ++ ra = b ++ rb ->
  tw + total_words a <= MAX_WORD_LIMIT ->
  tw + total_words b <= MAX_WORD_LIMIT ->
  (forall d r, ra = d :: r ->
     MAX_WORD_LIMIT < tw + total_words a + length (split d)) ->
  (forall d r, rb = d :: r ->
     MAX_WORD_LIMIT < tw + total_words b + length (split d)) ->
  a = b.
Proof.
  generalize MAX_WORD_LIMIT; intros m.
  induction a as [|x a IH]; intros [|y b] ra rb tw E Ha Hb Na Nb.
  - reflexivity.
  - cbn [app] in E; specialize (Na _ _ E).
    rewrite total_words_cons in Hb.
    change (total_words []) with 0 in Na; lia.
  - cbn [app] in E; specialize (Nb _ _ (eq_sym E)).
    rewrite total_words_cons in Ha.
    change (total_words []) with 0 in Nb; lia.
  - cbn [app] in E; injection E as -> E.
    rewrite total_words_cons in Ha, Hb.
    f_equal; apply (IH b ra rb (tw + length (split y))); [exact E|lia|lia| |].
    + intros d r H; specialize (Na d r H).
      rewrite total_words_cons in Na; lia.
    + intros d r H; specialize (Nb d r H).
      rewrite total_words_cons in Nb; lia.
Qed.

Lemma split_join_sep sep l :
  sep <> [] -> all_space sep = true ->
  split (join sep l) = concat (map split l).
Proof.
  intros Hne Hsp; induction l as [|d l IH]; [reflexivity|].
  destruct l as [|d2 l'].
  - simpl; now rewrite app_nil_r.
  - change (join sep (d :: d2 :: l')) with (d ++ sep ++ join sep (d2 :: l')).
    rewrite split_app_sep, IH by assumption; reflexivity.
Qed.

Lemma length_concat_split l :
  length (concat (map split l)) = total_words l.
Proof.
  unfold total_words; induction l as [|d l IH]; simpl; [reflexivity|].
  now rewrite length_app, IH.
Qed.

Lemma infix_join sep d l : In d l -> infix d (join sep l).
Proof.
  induction l as [|x l IH]; [contradiction|].
  intros [->|Hin].
  - destruct l as [|y l'].
    + exists [], []; simpl; now rewrite app_nil_r.
    + exists [], (sep ++ join sep (y :: l')); reflexivity.
  - destruct l as [|y l']; [contradiction|].
    destruct (IH Hin) as (pre & post & E).
    exists (x ++ sep ++ pre), post.
    change (join sep (x :: y :: l')) with (x ++ sep ++ join sep (y :: l')).
    rewrite E, <- !app_assoc; reflexivity.
Qed.

Section WithEmbedder.

Variable cos_sim : str -> str -> Q.

Let scored (query : str) (docs : list str) : list (Q * str) :=
  map (fun doc => (cos_sim query doc, doc)) docs.

Lemma ranked_perm query docs :
  Permutation (ranked cos_sim query docs) (scored query docs).
Proof. apply sort_desc_perm. Qed.

Lemma ranked_docs_perm query docs :
  Permutation (map snd (ranked cos_sim query docs)) docs.
Proof.
  eapply perm_trans; [apply Permutation_map, ranked_perm|].
  unfold scored; rewrite map_map, map_id; apply Permutation_refl.
Qed.

Lemma selected_in_docs query docs d :
  In d (selected cos_sim query docs) -> In d docs.
Proof.
  intros H.
  destruct (select_prefix (ranked cos_sim query docs) 0) as (rest & E & _).
  eapply Permutation_in; [apply ranked_docs_perm|].
  rewrite E; apply in_or_app; left; exact H.
Qed.

(** Three documents given in score order stay in that order. *)
Lemma ranked_three query d1 d2 d3 :
  (cos_sim query d2 <= cos_sim query d1)%Q ->
  (cos_sim query d3 <= cos_sim query d2)%Q ->
  ranked cos_sim query [d1; d2; d3] = scored query [d1; d2; d3].
Proof.
  intros H21 H32; apply Qle_bool_iff in H21, H32.
  unfold ranked, scored; simpl; rewrite H32; simpl; rewrite H21; reflexivity.
Qed.

End WithEmbedder.

End RankerFacts.

Section RankAndSelect.

Import Ranker RankerFacts.

Variable cos_sim : str -> str -> Q.

(** C5.  The documents are ranked by descending score; the selection is
    the beginning of that ranking whose words fit in 9000, and it ends at
    the first document whose words would take the running total past 9000:
    nothing after that document is selected, whatever its size.  No other
    beginning of the ranking fits the budget and stops at a document that
    does not, so these facts determine the selection.  Three documents of
    6000, 4000 and 500 words, in score order, give the first document
    alone. *)
Theorem rank_and_select_greedy_stop query docs :
  let r := ranked cos_sim query docs in
  let sel := selected cos_sim query docs in
  Permutation r (map (fun doc => (cos_sim query doc, doc)) docs)
  /\ StronglySorted (fun a b => (fst b <= fst a)%Q) r
  /\ rank_and_select_contexts cos_sim query docs = join [NL; NL] sel
  /\ (exists rest,
        map snd r = sel ++ rest
        /\ total_words sel <= MAX_WORD_LIMIT
        /\ forall d rest', rest = d :: rest' ->
             MAX_WORD_LIMIT < total_words sel + length (split d))
  /\ (forall sel' rest,
        map snd r = sel' ++ rest ->
        total_words sel' <= MAX_WORD_LIMIT ->
        (forall d rest', rest = d :: rest' ->
           MAX_WORD_LIMIT < total_words sel' + length (split d)) ->
        sel' = sel)
  /\ (forall d1 d2 d3,
        docs = [d1; d2; d3] ->
        length (split d1) = N.to_nat 6000 ->
        length (split d2) = N.to_nat 4000 ->
        length (split d3) = N.to_nat 500 ->
        (cos_sim query d2 <= cos_sim query d1)%Q ->
        (cos_sim query d3 <= cos_sim query d2)%Q ->
        sel = [d1] /\ rank_and_select_contexts cos_sim query docs = d1).
Proof.
  intros r sel.
  split; [apply ranked_perm|].
  split; [apply sort_desc_sorted|].
  split; [reflexivity|].
  assert (B : total_words sel <= MAX_WORD_LIMIT)
    by apply (select_budget r 0), Nat.le_0_l.
  destruct (select_prefix r 0) as (rest0 & P & N).
  split; [exists rest0; split; [exact P|split; [exact B|exact N]]|].
  split.
  { intros sel' rest P' B' N'.
    apply (budget_prefix_unique sel' sel rest rest0 0);
      [rewrite <- P'; exact P|exact B'|exact B|exact N'|exact N]. }
  intros d1 d2 d3 -> H1 H2 H3 S21 S32.
  assert (E : sel = [d1]).
  { unfold sel, selected; rewrite (ranked_three cos_sim query d1 d2 d3 S21 S32).
    cbn [map select]; rewrite H1.
    replace (MAX_WORD_LIMIT <? 0 + N.to_nat 6000) with false
      by (vm_compute; reflexivity).
    rewrite H2.
    replace (MAX_WORD_LIMIT <? 0 + N.to_nat 6000 + N.to_nat 4000) with true
      by (vm_compute; reflexivity).
    reflexivity. }
  split; [exact E|].
  unfold rank_and_select_contexts; fold sel; rewrite E; reflexivity.
Qed.

(** C6.  The returned string has at most 9000 words, and every selected
    document is one of the given documents and stands in the string whole. *)
Theorem rank_and_select_within_budget query docs :
  length (split (rank_and_select_contexts cos_sim query docs))
    <= MAX_WORD_LIMIT
  /\ total_words (selected cos_sim query docs) <= MAX_WORD_LIMIT
  /\ forall d, In d (selected cos_sim query docs) ->
       In d docs /\ infix d (rank_and_select_contexts cos_sim query docs).
Proof.
  assert (B : total_words (selected cos_sim query docs) <= MAX_WORD_LIMIT).
  { apply (select_budget (ranked cos_sim query docs) 0), Nat.le_0_l. }
  split; [|split; [exact B|]].
  - unfold rank_and_select_contexts.
    rewrite split_join_sep by (discriminate || reflexivity).
    now rewrite length_concat_split.
  - intros d Hd; split.
    + eapply selected_in_docs; exact Hd.
    + apply infix_join; exact Hd.
Qed.

End RankAndSelect.

Lemma rank_and_select_within_budget_witness :
  In (doc_of_words 6000)
     [doc_of_words 6000; doc_of_words 4000; doc_of_words 500]
  /\ infix (doc_of_words 6000)
       (Ranker.rank_and_select_contexts by_length (lit "q")
          [doc_of_words 6000; doc_of_words 4000; doc_of_words 500]).
Proof.
  apply (proj2 (proj2 (rank_and_select_within_budget by_length (lit "q")
           [doc_of_words 6000; doc_of_words 4000; doc_of_words 500]))).
  vm_compute; left; reflexivity.
Defined.

Lemma rank_and_select_greedy_stop_witness :
  Ranker.selected by_length (lit "q")
    [doc_of_words 6000; doc_of_words 4000; doc_of_words 500]
  = [doc_of_words 6000].
Proof.
  refine (proj1 (proj2 (proj2 (proj2 (proj2 (proj2
    (rank_and_select_greedy_stop by_length (lit "q")
       [doc_of_words 6000; doc_of_words 4000; doc_of_words 500])))))
    (doc_of_words 6000) (doc_of_words 4000) (doc_of_words 500)
    eq_refl _ _ _ _ _)).
  - vm_compute; reflexivity.
  - vm_compute; reflexivity.
  - vm_compute; reflexivity.
  - apply Qle_bool_iff; vm_compute; reflexivity.
  - apply Qle_bool_iff; vm_compute; reflexivity.
Defined.

(** ** [robust_search] *)

Module ChainFacts.

Import Chain.

(** On a string the test is the one of the class constants. *)
Lemma malformed_str s : malformed (VStr s) = Ok (malformed_arxiv s).
Proof.
  unfold malformed, malformed_arxiv; cbn [py_in bind].
  destruct (contains (lit "arxiv.org/abs/") s); reflexivity.
Qed.

Section WithConsole.

Variable print : notice -> result unit.

(** Whatever the inner loop leaves in [urls] was there before or is an
    element of [new_urls] that passed the test. *)
Lemma append_accepted_sound u new_urls : forall urls,
  In u (fst (append_accepted print urls new_urls)) ->
  In u urls \/ (In u new_urls /\ malformed u = Ok false).
Proof.
  induction new_urls as [|url rest IH]; intros urls H; [now left|].
  cbn [append_accepted] in H.
  destruct (malformed url) as [[|]|e] eqn:M.
  - destruct (print (Malformed_url url)); [|now left].
    apply IH in H as [H|[H1 H2]]; [now left|right; split; [now right|exact H2]].
  - apply IH in H as [H|[H1 H2]].
    + apply in_app_or in H as [H|[<-|[]]]; [now left|].
      right; split; [now left|exact M].
    + right; split; [now right|exact H2].
  - now left.
Qed.

(** Whatever [search_from] returns was there at the start or comes, having
    passed the test, from one of the functions gone through. *)
Lemma search_from_sound query u fns : forall urls r,
  fst (search_from print query fns urls) = Ok r ->
  In u r ->
  In u urls
  \/ (malformed u = Ok false
      /\ exists fn new_urls,
           In fn (map snd fns) /\ fn query = Ok new_urls /\ In u new_urls).
Proof.
  induction fns as [|[name fn] rest IH]; intros urls r E H.
  - injection E as <-; now left.
  - cbn [search_from] in E.
    assert (Later : forall urls',
      (In u urls' -> In u urls
         \/ (malformed u = Ok false
             /\ exists fn' l, In fn' (map snd ((name, fn) :: rest))
                  /\ fn' query = Ok l /\ In u l)) ->
      fst (search_from print query rest urls') = Ok r ->
      In u urls
      \/ (malformed u = Ok false
          /\ exists fn' l, In fn' (map snd ((name, fn) :: rest))
               /\ fn' query = Ok l /\ In u l)).
    { intros urls' Step E'.
      destruct (IH _ _ E' H) as [H'|(Hm & fn' & l & Hf & Hc & Hl)].
      - apply Step; exact H'.
      - right; split; [exact Hm|].
        exists fn', l; repeat split; auto; now right. }
    destruct (fn query) as [new_urls|e] eqn:C.
    + assert (Step : In u (fst (append_accepted print urls new_urls)) ->
                     In u urls
                     \/ (malformed u = Ok false
                         /\ exists fn' l, In fn' (map snd ((name, fn) :: rest))
                              /\ fn' query = Ok l /\ In u l)).
      { intros Hin; apply append_accepted_sound in Hin as [Hin|[Hin Hm]];
          [now left|right].
        split; [exact Hm|exists fn, new_urls; repeat split; auto; now left]. }
      destruct (append_accepted print urls new_urls) as [urls' [e|]];
        cbn [fst] in Step.
      * destruct (print (Unexpected_failure e)); [|discriminate].
        destruct (search_from print query rest urls') as [r' called] eqn:E'.
        apply (Later urls' Step); rewrite E'; exact E.
      * destruct (nonempty urls').
        -- injection E as <-; apply Step; exact H.
        -- destruct (search_from print query rest urls') as [r' called] eqn:E'.
           apply (Later urls' Step); rewrite E'; exact E.
    + destruct (print (Unexpected_failure e)); [|discriminate].
      destruct (search_from print query rest urls) as [r' called] eqn:E'.
      apply (Later urls (fun Hin => or_introl Hin)); rewrite E'; exact E.
Qed.

(** From here on the console writes every message. *)
Hypothesis print_ok : forall m, print m = Ok tt.

(** Of a list of strings the inner loop appends the accepted ones, and it
    raises nothing. *)
Lemma append_accepted_strings new_urls : forall urls,
  append_accepted print urls (map VStr new_urls)
  = (urls ++ map VStr (accepted new_urls), None).
Proof.
  unfold accepted.
  induction new_urls as [|u rest IH]; intros urls; cbn [map append_accepted].
  - now rewrite app_nil_r.
  - rewrite malformed_str; cbn [filter].
    destruct (malformed_arxiv u); cbn [negb].
    + rewrite print_ok; apply IH.
    + rewrite IH; cbn [map]; rewrite <- app_assoc; reflexivity.
Qed.

Variable query : str.

Let from := search_from print query.

(** A provider that contributes nothing is passed over. *)
Lemma search_from_miss name fn rest :
  silent (fn query) ->
  from ((name, fn) :: rest) []
  = (fst (from rest []), name :: snd (from rest [])).
Proof.
  unfold from; intros [[e H]|(l & H & A)]; cbn [search_from]; rewrite H.
  - rewrite print_ok.
    now destruct (search_from print query rest []).
  - rewrite append_accepted_strings, A; cbn [map app nonempty].
    now destruct (search_from print query rest []).
Qed.

(** A provider that contributes something ends the search. *)
Lemma search_from_hit name fn rest new_urls :
  fn query = Ok (map VStr new_urls) ->
  accepted new_urls <> [] ->
  from ((name, fn) :: rest) [] = (Ok (map VStr (accepted new_urls)), [name]).
Proof.
  unfold from; intros H A; cbn [search_from]; rewrite H.
  rewrite append_accepted_strings; cbn [app].
  destruct (accepted new_urls); [congruence|reflexivity].
Qed.

Lemma search_from_first before : forall name fn after new_urls,
  Forall (fun f => silent (snd f query)) before ->
  fn query = Ok (map VStr new_urls) ->
  accepted new_urls <> [] ->
  from (before ++ (name, fn) :: after) []
  = (Ok (map VStr (accepted new_urls)), map fst before ++ [name]).
Proof.
  induction before as [|[p f] before IH]; intros name fn after l Hb Hfn A.
  - apply search_from_hit; assumption.
  - inversion Hb as [|? ? Hp Hb']; subst.
    rewrite <- app_comm_cons, (search_from_miss _ _ _ Hp).
    rewrite (IH _ _ _ _ Hb' Hfn A); reflexivity.
Qed.

Lemma search_from_none fns :
  Forall (fun f => silent (snd f query)) fns ->
  from fns [] = (Ok [], map fst fns).
Proof.
  induction 1 as [|[p f] fns Hp _ IH]; [reflexivity|].
  rewrite (search_from_miss _ _ _ Hp), IH; reflexivity.
Qed.

End WithConsole.

End ChainFacts.

Section RobustSearch.

Import Chain ChainFacts.

Variable print : notice -> result unit.
Variables (self : Searchers) (query : str) (num_results : nat).

(** C8.  As long as the console writes the messages and the providers
    hand back strings, as they are annotated: the providers are tried in
    the written order of priority; the first one whose URLs, without the
    malformed ones, are not empty ends the search, and those URLs are the
    result; the providers after it are not called.  If none has such a
    URL, all five are called and the result is empty.  When the first
    provider returns nothing and the second returns ["u1", "u2"], the
    result is ["u1", "u2"] and only these two providers were called. *)
Theorem robust_search_first_nonempty :
  (forall m, print m = Ok tt) ->
  let outcomes :=
    [ (Brave, brave_search self query);
      (Arxiv, search_arvix self query num_results);
      (SemanticScholar, semantic_search_scholar self query num_results);
      (DuckDuckGo, search_duckduckgo self query num_results);
      (Google, search_google self query num_results) ] in
  (forall before fn new_urls after,
     outcomes = before ++ (fn, Ok (map VStr new_urls)) :: after ->
     Forall (fun o => silent (snd o)) before ->
     accepted new_urls <> [] ->
     robust_search_trace print self query num_results
     = (Ok (map VStr (accepted new_urls)), map fst before ++ [fn]))
  /\ (Forall (fun o => silent (snd o)) outcomes ->
      robust_search_trace print self query num_results
      = (Ok [], [Brave; Arxiv; SemanticScholar; DuckDuckGo; Google]))
  /\ (brave_search self query = Ok [] ->
      search_arvix self query num_results
      = Ok [VStr (lit "u1"); VStr (lit "u2")] ->
      robust_search_trace print self query num_results
      = (Ok [VStr (lit "u1"); VStr (lit "u2")], [Brave; Arxiv])).
Proof.
  intros print_ok outcomes.
  assert (O : outcomes
              = map (fun f => (fst f, snd f query))
                  (search_functions self num_results)) by reflexivity.
  split; [|split].
  - intros before fn new_urls after E Hb A.
    rewrite O in E.
    apply map_eq_app in E as (fb & fr & Ef & Eb & Er).
    apply map_eq_cons in Er as ([name f] & fa & -> & Ex & _).
    cbn [fst snd] in Ex; injection Ex as <- Ex; subst before.
    unfold robust_search_trace; rewrite Ef.
    rewrite (search_from_first print print_ok query fb name f fa new_urls).
    + rewrite map_map; reflexivity.
    + rewrite Forall_map in Hb; exact Hb.
    + exact Ex.
    + exact A.
  - intros H; rewrite O, Forall_map in H.
    unfold robust_search_trace.
    rewrite (search_from_none print print_ok query _ H); reflexivity.
  - intros H1 H2.
    unfold robust_search_trace, search_functions.
    rewrite (search_from_miss print print_ok query).
    + rewrite (search_from_hit print print_ok query _ _ _
                 [lit "u1"; lit "u2"]).
      * reflexivity.
      * exact H2.
      * vm_compute; discriminate.
    + right; exists []; split; [exact H1|reflexivity].
Qed.

End RobustSearch.

Lemma robust_search_first_nonempty_witness :
  Chain.robust_search_trace console two_from_second (lit "q") 3
  = (Ok [VStr (lit "u1"); VStr (lit "u2")], [Chain.Brave; Chain.Arxiv])
  /\ Chain.robust_search_trace console two_from_second (lit "q") 3
     = (Ok (map VStr (Chain.accepted [lit "u1"; lit "u2"])),
        [Chain.Brave] ++ [Chain.Arxiv])
  /\ Chain.robust_search_trace console none_found (lit "q") 3
     = (Ok [],
        [Chain.Brave; Chain.Arxiv; Chain.SemanticScholar; Chain.DuckDuckGo;
         Chain.Google]).
Proof.
  pose proof (robust_search_first_nonempty console two_from_second (lit "q") 3
                (fun _ => eq_refl)) as Two.
  pose proof (robust_search_first_nonempty console none_found (lit "q") 3
                (fun _ => eq_refl)) as Nothing.
  cbv zeta in Two, Nothing.
  destruct Two as (First & _ & Example).
  destruct Nothing as (_ & None_ & _).
  split; [exact (Example eq_refl eq_refl)|].
  split.
  - apply (First [(Chain.Brave, Ok [])] Chain.Arxiv [lit "u1"; lit "u2"]
             [(Chain.SemanticScholar, Ok [VStr (lit "u3")]);
              (Chain.DuckDuckGo, Ok [VStr (lit "u4")]);
              (Chain.Google, Ok [VStr (lit "u5")])]).
    + reflexivity.
    + apply Forall_cons; [|apply Forall_nil].
      right; exists []; split; reflexivity.
    + vm_compute; discriminate.
  - apply None_.
    repeat (apply Forall_cons;
            [solve [ right; exists []; split; reflexivity
                   | left; eexists; reflexivity ]|]).
    apply Forall_nil.
Defined.

(** The claim as it stands fails when a provider hands back a value that
    is no string.  Semantic Scholar answers with a paper whose URL is
    null after one with a URL: the first URL is appended, the test of the
    null raises, and the search goes on to DuckDuckGo, whose URL is
    appended to the same list.  Four providers were called, and the result
    is the list of none of them. *)
Lemma robust_search_mixes_providers :
  Chain.semantic_search_scholar (Chain.searchers null_url_services)
    (lit "q") 3
  = Ok [VStr (lit "https://a.example/1"); VNone]
  /\ Chain.robust_search_trace console (Chain.searchers null_url_services)
       (lit "q") 3
     = (Ok [VStr (lit "https://a.example/1"); VStr (lit "https://b.example/2")],
        [Chain.Brave; Chain.Arxiv; Chain.SemanticScholar; Chain.DuckDuckGo])
  /\ ~ (exists new_urls,
          In (Ok new_urls)
            [ Chain.brave_search (Chain.searchers null_url_services)
                (lit "q");
              Chain.search_arvix (Chain.searchers null_url_services)
                (lit "q") 3;
              Chain.semantic_search_scholar
                (Chain.searchers null_url_services) (lit "q") 3;
              Chain.search_duckduckgo (Chain.searchers null_url_services)
                (lit "q") 3;
              Chain.search_google (Chain.searchers null_url_services)
                (lit "q") 3 ]
          /\ incl [VStr (lit "https://a.example/1");
                   VStr (lit "https://b.example/2")] new_urls).
Proof.
  split; [vm_compute; reflexivity|].
  split; [vm_compute; reflexivity|].
  intros (new_urls & H & I).
  pose proof (I _ (or_introl eq_refl)) as A.
  pose proof (I _ (or_intror (or_introl eq_refl))) as B.
  vm_compute in H.
  repeat (destruct H as [H|H]; [injection H as <-|]); try contradiction;
    vm_compute in A, B;
    repeat match goal with
           | K : _ \/ _ |- _ => destruct K as [K|K]
           | K : False |- _ => destruct K
           | K : _ = _ |- _ => discriminate K
           end.
Qed.

(** The console has its part too.  When it cannot write the message of a
    malformed URL, the [print] raises inside the [try]: the first page is
    kept, the page after the malformed URL is never looked at, and the next
    provider is called before the search ends.  On a console that writes
    every message the same searchers give both pages and a single call. *)
Lemma robust_search_cut_short_by_console :
  Chain.robust_search_trace strict_console surrogate_url_first (lit "q") 3
  = (Ok [VStr (lit "https://a.example/1")], [Chain.Brave; Chain.Arxiv])
  /\ Chain.robust_search_trace console surrogate_url_first (lit "q") 3
     = (Ok [VStr (lit "https://a.example/1"); VStr (lit "https://b.example/2")],
        [Chain.Brave]).
Proof. split; vm_compute; reflexivity. Qed.

(** ** The providers absorb their failures *)

Module ProviderFacts.

Import Providers.









End ProviderFacts.

Section ProviderFailures.

Import Providers ProviderFacts.


End ProviderFailures.


(** ** [fetch_full_text] *)

Section FetchFullText.

Import Extract.

Variables (w : Web) (url : str).



End FetchFullText.



(** ** [sub_agent_fn] *)

Section SubAgent.

Import Agent.

Variable robust_search : str -> list str.
Variable fetch_full_text : str -> result str.
Variable cos_sim : str -> str -> Q.
Variable llm_ainvoke : str -> result str.

(** [contents] and [sites] grow together. *)
Lemma scrape_same_length urls : forall contents sites,
  length contents = length sites ->
  length (fst (scrape fetch_full_text urls contents sites))
  = length (snd (scrape fetch_full_text urls contents sites)).
Proof.
  induction urls as [|u rest IH]; intros contents sites H; simpl; [exact H|].
  destruct (fetch_full_text u) as [content|e]; [|now apply IH].
  destruct (nonempty content); apply IH; [|exact H].
  rewrite !length_app; simpl; lia.
Qed.


End SubAgent.



(** ** [search_arvix] *)

Module ArvixFacts.

Import Providers.

Lemma eqb_str_eq a : forall b, eqb_str a b = true <-> a = b.
Proof.
  induction a as [|x a IH]; intros [|y b]; simpl;
    try (split; [discriminate|congruence]); [tauto|].
  rewrite andb_true_iff, N.eqb_eq, IH; split.
  - intros [-> ->]; reflexivity.
  - intros [= -> ->]; auto.
Qed.

Lemma mem_str_In w l : mem_str w l = true <-> In w l.
Proof.
  induction l as [|x l IH]; simpl; [split; [discriminate|tauto]|].
  rewrite orb_true_iff, eqb_str_eq, IH; split; intros [H|H]; auto.
Qed.

(** [len(a & b) > 0]: the two sets have a word in common. *)
Lemma set_inter_nonempty a b :
  (0 <? length (set_inter a b)) = true <-> exists w, In w a /\ In w b.
Proof.
  unfold set_inter; split.
  - intros H; apply Nat.ltb_lt in H.
    destruct (filter (fun w => mem_str w b) a) as [|w l] eqn:E;
      [simpl in H; lia|].
    assert (Hw : In w (filter (fun w => mem_str w b) a))
      by (rewrite E; now left).
    apply filter_In in Hw as [Ha Hb].
    exists w; split; [exact Ha|now apply mem_str_In].
  - intros (w & Ha & Hb); apply Nat.ltb_lt.
    assert (Hw : In w (filter (fun w => mem_str w b) a)).
    { apply filter_In; split; [exact Ha|now apply mem_str_In]. }
    destruct (filter (fun w => mem_str w b) a); [contradiction|simpl; lia].
Qed.

(** The loop keeps the URLs of the accepted entries, in order. *)
Lemma arvix_links_filter keywords entries : forall links,
  arvix_links keywords entries links
  = links ++ map raw_url_of (filter (kept keywords) entries).
Proof.
  induction entries as [|entry rest IH]; intros links; simpl.
  - now rewrite app_nil_r.
  - unfold kept at 1, entry_accepted.
    destruct (has_tags entry); simpl; [|apply IH].
    destruct (rmatch ARXIV_VALID_REGEX (raw_url_of entry)); simpl;
      [|apply IH].
    destruct (0 <? length (set_inter keywords (title_words (title_of entry))));
      simpl; [|apply IH].
    rewrite IH, <- app_assoc; reflexivity.
Qed.

Lemma entry_accepted_iff keywords entry :
  entry_accepted keywords entry = true
  <-> (exists p rest, raw_url_of entry = p ++ rest /\ strict_abs_page p)
      /\ (exists w, In w keywords /\ In w (title_words (title_of entry))).
Proof.
  unfold entry_accepted.
  rewrite andb_true_iff, RegexFacts.arxiv_match_prefix, set_inter_nonempty.
  reflexivity.
Qed.

End ArvixFacts.

Section SearchArvix.

Import Providers ArvixFacts.

Variables (h : result Response) (query : str).

(** C4, as amended.  The search keeps the URL of an entry only if the URL
    begins with the abs-page form (scheme and host, four digits, a dot,
    five digits, an optional version suffix: what follows that form is not
    examined) and only if the keywords of the query and the words of the
    title have a word in common; it keeps every such entry that carries
    both tags, in order.  The validator rejects
    https://arxiv.org/abs/abcde.12345 and accepts
    https://arxiv.org/abs/2301.12345v2. *)
Theorem search_arvix_accepted :
  (forall r, h = Ok r -> raise_for_status r = Ok tt ->
     search_arvix h query
     = Ok (map raw_url_of
             (filter (kept (query_keywords query))
                (split_sep (lit "<entry>") (text r)))))
  /\ (forall urls url,
        search_arvix h query = Ok urls -> In url urls ->
        exists entry,
          url = raw_url_of entry
          /\ (exists p rest, url = p ++ rest /\ strict_abs_page p)
          /\ (exists w, In w (query_keywords query)
                        /\ In w (title_words (title_of entry))))
  /\ (forall entry,
        entry_accepted (query_keywords query) entry = true
        <-> (exists p rest, raw_url_of entry = p ++ rest /\ strict_abs_page p)
            /\ (exists w, In w (query_keywords query)
                          /\ In w (title_words (title_of entry))))
  /\ rmatch ARXIV_VALID_REGEX (lit "https://arxiv.org/abs/abcde.12345") = false
  /\ rmatch ARXIV_VALID_REGEX (lit "https://arxiv.org/abs/2301.12345v2") = true.
Proof.
  assert (E : forall r, h = Ok r -> raise_for_status r = Ok tt ->
     search_arvix h query
     = Ok (map raw_url_of
             (filter (kept (query_keywords query))
                (split_sep (lit "<entry>") (text r))))).
  { intros r -> Hs; unfold search_arvix; simpl; rewrite Hs; simpl.
    now rewrite arvix_links_filter. }
  split; [exact E|].
  split; [|split; [intros entry; apply entry_accepted_iff|]].
  - intros urls url Hu Hin.
    destruct h as [r|e] eqn:Eh.
    + destruct (raise_for_status r) as [[]|e] eqn:Hs.
      * rewrite (E r eq_refl Hs) in Hu; injection Hu as <-.
        apply in_map_iff in Hin as (entry & <- & Hin).
        apply filter_In in Hin as [_ Hk].
        unfold kept in Hk; apply andb_prop in Hk as [_ Hk].
        apply entry_accepted_iff in Hk as [H1 H2].
        exists entry; auto.
      * unfold search_arvix in Hu; simpl in Hu; rewrite Hs in Hu.
        injection Hu as <-; contradiction.
    + injection Hu as <-; contradiction.
  - split; vm_compute; reflexivity.
Qed.

End SearchArvix.

(** C4 as stated fails: a URL that has more than the strict form is
    accepted. *)
Lemma search_arvix_accepts_trailing_text :
  Providers.search_arvix trailing_feed (lit "solar") = Ok [trailing_url]
  /\ fullmatch ARXIV_VALID_REGEX trailing_url = false
  /\ ~ strict_abs_page trailing_url.
Proof.
  split; [vm_compute; reflexivity|].
  assert (F : fullmatch ARXIV_VALID_REGEX trailing_url = false)
    by (vm_compute; reflexivity).
  split; [exact F|].
  intros H; apply RegexFacts.arxiv_fullmatch_strict in H; congruence.
Qed.

Lemma search_arvix_accepted_witness :
  exists p rest, trailing_url = p ++ rest /\ strict_abs_page p.
Proof.
  destruct (search_arvix_accepted trailing_feed (lit "solar")) as (_ & H & _).
  destruct (H [trailing_url] trailing_url) as (entry & _ & Hp & _).
  - vm_compute; reflexivity.
  - left; reflexivity.
  - exact Hp.
Defined.

(** ** The database engine *)

Module SqliteFacts.

Import Sqlite.

Lemma eqb_str_refl a : eqb_str a a = true.
Proof. now apply ArvixFacts.eqb_str_eq. Qed.

Lemma eqb_str_neq a b : a <> b -> eqb_str a b = false.
Proof.
  intros H; destruct (eqb_str a b) eqn:E; [|reflexivity].
  apply ArvixFacts.eqb_str_eq in E; congruence.
Qed.

Lemma bind_text_ok s : encodable s = true -> bind_text s = Ok tt.
Proof. unfold bind_text; now intros ->. Qed.

Lemma bind_text_refused s :
  encodable s = false -> bind_text s = Raise UnicodeEncodeError.
Proof. unfold bind_text; now intros ->. Qed.

Lemma bind_optional_ok s :
  encodable_or_null s = true -> bind_optional s = Ok tt.
Proof. destruct s; [apply bind_text_ok|reflexivity]. Qed.

Lemma bind_int_ok n : int64 n = true -> bind_int n = Ok tt.
Proof. unfold bind_int; now intros ->. Qed.

Lemma bind_int_refused n :
  int64 n = false -> bind_int n = Raise OverflowError.
Proof. unfold bind_int; now intros ->. Qed.

(** On an engine that objects to nothing a statement is carried out as
    soon as its parameters bind. *)
Lemma execute_performs eng k parameters :
  performs eng -> execute eng k parameters = bind_all parameters.
Proof.
  intros (_ & P & S & _); unfold execute; rewrite P, S; cbn [stage bind].
  destruct (bind_all parameters) as [[]|e]; reflexivity.
Qed.

Lemma insert_fresh {R} (key : R -> str) row table :
  ~ In (key row) (map key table) -> insert key row table = Ok (table ++ [row]).
Proof.
  intros H; unfold insert.
  replace (existsb (fun r => eqb_str (key r) (key row)) table) with false;
    [reflexivity|].
  symmetry; apply not_true_is_false; intros E.
  apply existsb_exists in E as (r & Hr & Er).
  apply ArvixFacts.eqb_str_eq in Er.
  apply H; rewrite <- Er; now apply in_map.
Qed.

Lemma insert_inv {R} (key : R -> str) row table rows :
  insert key row table = Ok rows ->
  rows = table ++ [row] /\ ~ In (key row) (map key table).
Proof.
  unfold insert.
  destruct (existsb (fun r => eqb_str (key r) (key row)) table) eqn:E;
    [discriminate|].
  intros [= <-]; split; [reflexivity|].
  intros H; apply in_map_iff in H as (r & Er & Hr).
  assert (T : existsb (fun r => eqb_str (key r) (key row)) table = true).
  { apply existsb_exists; exists r; split; [exact Hr|].
    rewrite Er; apply eqb_str_refl. }
  congruence.
Qed.

End SqliteFacts.

(** ** [save_final_report] *)

Section SaveFinalReport.

Import Sqlite SqliteFacts Db.

Variable json_dumps : value -> result str.

Lemma count_words_sum values : forall word_count,
  count_words values word_count
  = word_count + list_sum (map words_of values).
Proof.
  induction values as [|v rest IH]; intros word_count; simpl; [lia|].
  destruct v; rewrite IH; simpl; lia.
Qed.

(** C10.  Whenever [save_final_report] returns, it has stored one row, and
    the row carries as [word_count] the sum of the word counts of the
    section values that are strings; a value that is not a string adds
    nothing.  It returns when [json.dumps] encodes the report, the
    parameters bind, the identifier is new and the engine objects to
    nothing.  When it raises, and it does when [json.dumps] raises, no row
    is stored. *)
Theorem save_final_report_word_count
  eng final_reports uuid4 session_id structure_id report_data :
  let after :=
    fst (save_final_report json_dumps eng final_reports uuid4 session_id
           structure_id report_data) in
  let outcome :=
    snd (save_final_report json_dumps eng final_reports uuid4 session_id
           structure_id report_data) in
  let total := list_sum (map words_of (map snd report_data)) in
  (forall id,
     outcome = Ok id ->
     id = uuid4
     /\ exists row,
          after = final_reports ++ [row]
          /\ Db.report_id row = uuid4
          /\ json_dumps (VDict report_data) = Ok (Db.report_data row)
          /\ word_count row = total)
  /\ (forall text,
        json_dumps (VDict report_data) = Ok text ->
        performs eng ->
        encodable uuid4 = true ->
        encodable session_id = true ->
        encodable structure_id = true ->
        encodable text = true ->
        (Z.of_nat total < 2 ^ 63)%Z ->
        ~ In uuid4 (map Db.report_id final_reports) ->
        outcome = Ok uuid4)
  /\ (forall e, outcome = Raise e -> after = final_reports)
  /\ (forall e,
        json_dumps (VDict report_data) = Raise e ->
        after = final_reports /\ exists e', outcome = Raise e')
  /\ (forall s, words_of (VStr s) = length (split s))
  /\ (forall v, isinstance_str v = false -> words_of v = 0).
Proof.
  intros after outcome total.
  assert (W : count_words (map snd report_data) 0 = total)
    by apply count_words_sum.
  unfold after, outcome, save_final_report; clear after outcome.
  rewrite W.
  split; [|split; [|split; [|split; [|split]]]].
  - intros id.
    destruct (stage (connect eng)) as [[]|e]; cbn [bind]; [|discriminate].
    destruct (json_dumps (VDict report_data)) as [text|e]; cbn [bind];
      [|discriminate].
    destruct (execute eng 0 _) as [[]|e]; cbn [bind]; [|discriminate].
    destruct (insert Db.report_id _ final_reports) as [rows|e] eqn:I;
      cbn [bind]; [|discriminate].
    destruct (stage (commit eng)) as [[]|e]; cbn [bind fst snd];
      [|discriminate].
    intros [= <-]; split; [reflexivity|].
    apply insert_inv in I as [-> _].
    eexists; split; [reflexivity|].
    split; [reflexivity|split; reflexivity].
  - intros text J P Hu Hs Ht Hx Hw Hf.
    pose proof P as (C & _ & _ & M).
    assert (B : int64 (Z.of_nat total) = true).
    { unfold int64; apply andb_true_iff.
      split; [apply Z.leb_le|apply Z.ltb_lt]; lia. }
    rewrite C; cbn [stage bind]; rewrite J; cbn [bind].
    rewrite (execute_performs _ _ _ P); cbn [bind_all].
    rewrite !bind_text_ok by assumption; cbn [bind].
    rewrite (bind_int_ok _ B); cbn [bind].
    rewrite insert_fresh by exact Hf; cbn [bind].
    rewrite M; reflexivity.
  - intros e.
    destruct (stage (connect eng)) as [[]|e1]; cbn [bind]; [|reflexivity].
    destruct (json_dumps (VDict report_data)) as [text|e2]; cbn [bind];
      [|reflexivity].
    destruct (execute eng 0 _) as [[]|e3]; cbn [bind]; [|reflexivity].
    destruct (insert Db.report_id _ final_reports) as [rows|e4];
      cbn [bind]; [|reflexivity].
    destruct (stage (commit eng)) as [[]|e5]; cbn [bind fst snd];
      [discriminate|reflexivity].
  - intros e J; rewrite J.
    destruct (stage (connect eng)) as [[]|e1]; cbn [bind fst snd];
      (split; [reflexivity|eexists; reflexivity]).
  - reflexivity.
  - intros [] H; try reflexivity; discriminate.
Qed.

End SaveFinalReport.

Lemma save_final_report_word_count_witness :
  snd (Db.save_final_report toy_dumps quiet [] (lit "r1") (lit "s1")
         (lit "t1") small_report)
  = Ok (lit "r1")
  /\ (exists row,
        fst (Db.save_final_report toy_dumps quiet [] (lit "r1") (lit "s1")
               (lit "t1") small_report)
        = [row]
        /\ Db.word_count row = 4)
  /\ Db.words_of (VList [VList [VStr (lit "https://a.example/1")]; VList []])
     = 0.
Proof.
  pose proof (save_final_report_word_count toy_dumps quiet [] (lit "r1")
                (lit "s1") (lit "t1") small_report) as T.
  cbv zeta in T.
  destruct T as (Stored & Returns & _ & _ & _ & Z).
  assert (R : snd (Db.save_final_report toy_dumps quiet [] (lit "r1")
                     (lit "s1") (lit "t1") small_report) = Ok (lit "r1")).
  { refine (Returns (lit "[]") eq_refl _ eq_refl eq_refl eq_refl eq_refl _ _).
    - unfold Sqlite.performs; repeat split.
    - vm_compute; reflexivity.
    - intros []. }
  destruct (Stored _ R) as (_ & row & E & _ & _ & W).
  split; [exact R|split].
  - exists row; split; [exact E|].
    rewrite W; vm_compute; reflexivity.
  - apply Z; reflexivity.
Defined.

(** The claim as it stands fails on a report that [json.dumps] cannot
    encode.  One section of the report is a message object: its words are
    not counted, the four words of the other section are, and
    [json.dumps] raises before the row is inserted, so that no row and no
    word count is stored. *)
Lemma save_final_report_stores_nothing_for_object :
  list_sum (map Db.words_of (map snd message_report)) = 4
  /\ Db.save_final_report toy_dumps quiet [] (lit "r1") (lit "s1") (lit "t1")
       message_report
     = ([], Raise TypeError).
Proof. split; vm_compute; reflexivity. Qed.

(** * Further properties *)

(** ** Dictionaries *)

Module ValueFacts.

Lemma lookup_get kv key default :
  py_get (VDict kv) key default
  = Ok (match lookup key kv with Some x => x | None => default end).
Proof. simpl; now destruct (lookup key kv). Qed.

Lemma lookup_in kv key :
  existsb (fun p => eqb_str key (fst p)) kv
  = match lookup key kv with Some _ => true | None => false end.
Proof.
  induction kv as [|[k v] kv IH]; [reflexivity|].
  simpl; destruct (eqb_str key k); [reflexivity|exact IH].
Qed.

Lemma py_in_dict key kv :
  py_in key (VDict kv)
  = Ok (match lookup key kv with Some _ => true | None => false end).
Proof. cbn [py_in]; now rewrite lookup_in. Qed.

End ValueFacts.

(** ** The words of a truncated text *)

Section TruncateWords.

(** X1.  The words of the output are the first 9000 words of the input,
    in order, followed by the one word of the marker when words were
    dropped: the output of a text over the budget has 9001 words. *)
Theorem truncate_context_words text :
  split (truncate_context text)
  = firstn MAX_WORD_LIMIT (split text)
    ++ (if MAX_WORD_LIMIT <? length (split text)
        then [lit "...[TRUNCATED]"] else [])
  /\ length (split (truncate_context text)) <= S MAX_WORD_LIMIT
  /\ (MAX_WORD_LIMIT < length (split text) ->
      length (split (truncate_context text)) = S MAX_WORD_LIMIT).
Proof.
  assert (E : split (truncate_context text)
              = firstn MAX_WORD_LIMIT (split text)
                ++ (if MAX_WORD_LIMIT <? length (split text)
                    then [lit "...[TRUNCATED]"] else [])).
  { unfold truncate_context.
    destruct (MAX_WORD_LIMIT <? length (split text)) eqn:L.
    - apply split_marked, Forall_firstn, split_words.
    - rewrite !app_nil_r; apply split_join, Forall_firstn, split_words. }
  split; [exact E|].
  rewrite E, length_app, length_firstn.
  generalize MAX_WORD_LIMIT; intros n.
  split.
  - destruct (n <? length (split text)); cbn [length]; lia.
  - intros H; apply Nat.ltb_lt in H as H'; rewrite H'; cbn [length]; lia.
Qed.

End TruncateWords.

Lemma truncate_context_words_witness :
  length (split (truncate_context ten_thousand_words)) = S MAX_WORD_LIMIT.
Proof.
  apply (proj2 (proj2 (truncate_context_words ten_thousand_words))).
  apply Nat.ltb_lt; vm_compute; reflexivity.
Defined.

(** ** More on the ranking *)

Module RankerMore.

Import Ranker RankerFacts.

Lemma same_score_kept (s : Q) (x y : Q * str) :
  Qle_bool (fst y) (fst x) = false ->
  Qeq_bool (fst x) s = true -> Qeq_bool (fst y) s = false.
Proof.
  intros Hle Hx.
  destruct (Qeq_bool (fst y) s) eqn:Hy; [|reflexivity].
  apply Qeq_bool_iff in Hx, Hy.
  assert (H : (fst y <= fst x)%Q) by (rewrite Hx, Hy; apply Qle_refl).
  apply Qle_bool_iff in H; congruence.
Qed.

Lemma insert_desc_filter s x l :
  filter (fun p => Qeq_bool (fst p) s) (insert_desc x l)
  = filter (fun p => Qeq_bool (fst p) s) (x :: l).
Proof.
  induction l as [|y l IH]; [reflexivity|].
  cbn [insert_desc].
  destruct (Qle_bool (fst y) (fst x)) eqn:E; [reflexivity|].
  cbn [filter] in *; rewrite IH.
  destruct (Qeq_bool (fst x) s) eqn:Hx; [|reflexivity].
  now rewrite (same_score_kept s x y E Hx).
Qed.

Lemma sort_desc_filter s l :
  filter (fun p => Qeq_bool (fst p) s) (sort_desc l)
  = filter (fun p => Qeq_bool (fst p) s) l.
Proof.
  induction l as [|x l IH]; [reflexivity|].
  cbn [sort_desc]; rewrite insert_desc_filter.
  cbn [filter]; now rewrite IH.
Qed.

(** When everything from [tw] on fits, the loop takes it all. *)
Lemma select_all r : forall tw,
  tw + total_words (map snd r) <= MAX_WORD_LIMIT ->
  select r [] tw = map snd r.
Proof.
  induction r as [|[s d] r IH]; intros tw H; [reflexivity|].
  change (map snd ((s, d) :: r)) with (d :: map snd r) in *.
  change (total_words (d :: map snd r))
    with (length (split d) + total_words (map snd r)) in H.
  cbn [select].
  replace (MAX_WORD_LIMIT <? tw + length (split d)) with false
    by (symmetry; apply Nat.ltb_ge; lia).
  rewrite select_app, IH by lia; reflexivity.
Qed.

Lemma total_words_perm a b :
  Permutation a b -> total_words a = total_words b.
Proof.
  unfold total_words; induction 1; simpl; lia.
Qed.

Lemma sorted_head_max (x : Q * str) l :
  StronglySorted desc (x :: l) ->
  forall y, In y (x :: l) -> (fst y <= fst x)%Q.
Proof.
  intros H y [<-|Hy]; [apply Qle_refl|].
  inversion H as [|? ? _ Hall]; subst.
  rewrite Forall_forall in Hall; exact (Hall y Hy).
Qed.

Section WithEmbedder.

Variable cos_sim : str -> str -> Q.

(** The ranked context is within the budget, so the hard truncation only
    rewrites its white space. *)
Lemma truncate_ranked query docs :
  truncate_context (rank_and_select_contexts cos_sim query docs)
  = join (lit " ") (concat (map split (selected cos_sim query docs)))
  /\ length (split (truncate_context
                      (rank_and_select_contexts cos_sim query docs)))
     <= MAX_WORD_LIMIT.
Proof.
  assert (S : split (rank_and_select_contexts cos_sim query docs)
              = concat (map split (selected cos_sim query docs))).
  { unfold rank_and_select_contexts.
    apply split_join_sep; [discriminate|reflexivity]. }
  assert (B : length (concat (map split (selected cos_sim query docs)))
              <= MAX_WORD_LIMIT).
  { rewrite length_concat_split.
    apply (select_budget (ranked cos_sim query docs) 0), Nat.le_0_l. }
  assert (E : truncate_context (rank_and_select_contexts cos_sim query docs)
              = join (lit " ")
                  (concat (map split (selected cos_sim query docs)))).
  { unfold truncate_context.
    rewrite cut_short by (rewrite S; exact B).
    now rewrite S. }
  split; [exact E|].
  assert (W : Forall (fun w => is_word w = true)
                (concat (map split (selected cos_sim query docs)))).
  { rewrite <- S; apply split_words. }
  now rewrite E, (split_join _ W).
Qed.

End WithEmbedder.

End RankerMore.

Section RankingMore.

Import Ranker RankerFacts RankerMore.

Variable cos_sim : str -> str -> Q.

(** X2.  The context handed on by the sub-agent, the ranked selection
    passed through the hard truncation, is the words of the selected
    documents joined by single spaces: the marker is never appended, the
    blank lines between documents are gone, and at most 9000 words are
    left. *)
Theorem truncate_after_ranking query docs :
  truncate_context (rank_and_select_contexts cos_sim query docs)
  = join (lit " ") (concat (map split (selected cos_sim query docs)))
  /\ split (truncate_context (rank_and_select_contexts cos_sim query docs))
     = concat (map split (selected cos_sim query docs))
  /\ length (split (truncate_context
                      (rank_and_select_contexts cos_sim query docs)))
     <= MAX_WORD_LIMIT.
Proof.
  destruct (truncate_ranked cos_sim query docs) as [E B].
  split; [exact E|split; [|exact B]].
  rewrite E; apply split_join.
  clear E B; induction (selected cos_sim query docs) as [|d l IH];
    [constructor|].
  cbn [map concat]; apply Forall_app; split; [apply split_words|exact IH].
Qed.

(** X3.  The ranking is stable: for every score, the documents of that
    score stand in the ranking in the order they were given in. *)
Theorem ranked_keeps_order_of_equal_scores query docs (s : Q) :
  map snd (filter (fun p => Qeq_bool (fst p) s) (ranked cos_sim query docs))
  = filter (fun doc => Qeq_bool (cos_sim query doc) s) docs.
Proof.
  unfold ranked; rewrite sort_desc_filter.
  induction docs as [|d l IH]; [reflexivity|].
  cbn [map filter fst].
  destruct (Qeq_bool (cos_sim query d) s); cbn [map snd]; now rewrite IH.
Qed.

(** X4.  When the document ranked strictly first has more than 9000
    words, nothing is selected and the context is the empty string, however
    small the other documents are. *)
Theorem oversize_best_document_empties_context query docs d :
  In d docs ->
  (forall d', In d' docs -> d' <> d ->
     (cos_sim query d' < cos_sim query d)%Q) ->
  MAX_WORD_LIMIT < length (split d) ->
  selected cos_sim query docs = []
  /\ rank_and_select_contexts cos_sim query docs = [].
Proof.
  intros Hin Hbest Hbig.
  assert (E : selected cos_sim query docs = []).
  { unfold selected.
    pose proof (ranked_perm cos_sim query docs) as P.
    pose proof (sort_desc_sorted
                  (map (fun doc => (cos_sim query doc, doc)) docs)) as Srt.
    fold (ranked cos_sim query docs) in Srt.
    assert (Hd : In (cos_sim query d, d) (ranked cos_sim query docs)).
    { eapply Permutation_in; [apply Permutation_sym, P|].
      apply in_map_iff; exists d; auto. }
    destruct (ranked cos_sim query docs) as [|[s0 d0] r]; [contradiction|].
    assert (H0 : In (s0, d0) (map (fun doc => (cos_sim query doc, doc)) docs)).
    { eapply Permutation_in; [apply P|now left]. }
    apply in_map_iff in H0 as (d1 & [= <- ->] & Hd0).
    assert (Hle : (cos_sim query d <= cos_sim query d0)%Q)
      by exact (sorted_head_max _ r Srt _ Hd).
    assert (d0 = d).
    { destruct (list_eq_dec N.eq_dec d0 d) as [e|n]; [exact e|].
      specialize (Hbest d0 Hd0 n).
      exfalso; eapply Qlt_irrefl, Qle_lt_trans; eassumption. }
    subst d0; cbn [select].
    apply Nat.ltb_lt in Hbig; cbn [Nat.add]; now rewrite Hbig. }
  split; [exact E|].
  unfold rank_and_select_contexts; now rewrite E.
Qed.

(** X5.  When the documents have at most 9000 words together, every one of
    them is selected: the selection is the whole ranking. *)
Theorem all_documents_selected_when_they_fit query docs :
  total_words docs <= MAX_WORD_LIMIT ->
  selected cos_sim query docs = map snd (ranked cos_sim query docs)
  /\ Permutation (selected cos_sim query docs) docs.
Proof.
  intros H.
  assert (E : selected cos_sim query docs
              = map snd (ranked cos_sim query docs)).
  { apply select_all.
    rewrite (total_words_perm _ _ (ranked_docs_perm cos_sim query docs)).
    exact H. }
  split; [exact E|].
  rewrite E; apply ranked_docs_perm.
Qed.

End RankingMore.

Lemma oversize_best_document_empties_context_witness :
  Ranker.rank_and_select_contexts by_length (lit "q") oversize_docs = [].
Proof.
  apply (oversize_best_document_empties_context by_length (lit "q")
           oversize_docs (doc_of_words 10000)).
  - right; left; reflexivity.
  - intros d' [<-|[<-|[]]] Hne.
    + vm_compute; reflexivity.
    + exfalso; apply Hne; reflexivity.
  - apply Nat.ltb_lt; vm_compute; reflexivity.
Defined.

Lemma all_documents_selected_when_they_fit_witness :
  Permutation (Ranker.selected by_length (lit "q") small_docs) small_docs.
Proof.
  apply (all_documents_selected_when_they_fit by_length (lit "q") small_docs).
  apply Nat.leb_le; vm_compute; reflexivity.
Defined.

(** ** More on the chain, the extractor and the sub-agent *)

Module PipelineMore.

Import Chain ChainFacts Extract Agent.

Lemma all_space_rev s : all_space (rev s) = all_space s.
Proof.
  unfold all_space; induction s as [|c s IH]; [reflexivity|].
  cbn [rev]; rewrite forallb_app, IH; simpl.
  rewrite andb_true_r; apply andb_comm.
Qed.

Lemma lstrip_empty s : lstrip s = [] <-> all_space s = true.
Proof.
  induction s as [|c s IH]; simpl; [tauto|].
  destruct (isspace c); simpl; [exact IH|].
  split; discriminate.
Qed.

Lemma lstrip_all_space s : all_space (lstrip s) = all_space s.
Proof.
  induction s as [|c s IH]; [reflexivity|].
  simpl; destruct (isspace c) eqn:E; simpl; [exact IH|now rewrite E].
Qed.

(** [strip] leaves nothing exactly of a text of white space. *)
Lemma strip_empty s : strip s = [] <-> all_space s = true.
Proof.
  unfold strip; split.
  - intros H.
    assert (H' : lstrip (rev (lstrip s)) = []).
    { destruct (lstrip (rev (lstrip s))) as [|x l]; [reflexivity|].
      simpl in H; destruct (rev l); discriminate. }
    apply lstrip_empty in H'.
    now rewrite all_space_rev, lstrip_all_space in H'.
  - intros H; apply lstrip_empty in H; now rewrite H.
Qed.

Lemma join_nonempty sep l :
  l <> [] -> Forall (fun p => p <> []) l -> join sep l <> [].
Proof.
  intros Hl H; destruct l as [|p l]; [congruence|].
  inversion H as [|? ? Hp _]; subst.
  destruct p as [|c p]; [congruence|].
  destruct l; simpl; discriminate.
Qed.

Lemma paragraph_text_empty ps :
  paragraph_text ps = [] <-> Forall (fun p => all_space p = true) ps.
Proof.
  unfold paragraph_text; split.
  - intros H.
    destruct (filter (fun p => nonempty (strip p)) ps) as [|p l] eqn:E.
    + apply Forall_forall; intros p Hp.
      apply strip_empty.
      destruct (strip p) as [|c t] eqn:Es; [reflexivity|].
      assert (Hin : In p (filter (fun p => nonempty (strip p)) ps)).
      { apply filter_In; split; [exact Hp|now rewrite Es]. }
      rewrite E in Hin; contradiction.
    + exfalso; revert H; apply join_nonempty; [discriminate|].
      rewrite <- E; apply Forall_forall; intros q Hq.
      apply filter_In in Hq as [_ Hq].
      destruct q; [discriminate|discriminate].
  - intros H.
    replace (filter (fun p => nonempty (strip p)) ps) with (@nil str);
      [reflexivity|].
    symmetry; induction H as [|p l Hp _ IH]; [reflexivity|].
    simpl; apply strip_empty in Hp; now rewrite Hp.
Qed.

Section WithFetch.

Variable fetch_full_text : str -> result str.

Lemma scrape_sites urls : forall contents sites,
  snd (scrape fetch_full_text urls contents sites)
  = sites ++ filter (scraped fetch_full_text) urls.
Proof.
  induction urls as [|u rest IH]; intros contents sites; simpl.
  - now rewrite app_nil_r.
  - unfold scraped at 1.
    destruct (fetch_full_text u) as [content|e]; [|apply IH].
    destruct (nonempty content); [|apply IH].
    rewrite IH, <- app_assoc; reflexivity.
Qed.

Lemma filter_firstn_length {A} (f : A -> bool) n (l : list A) :
  length (filter f (firstn n l)) <= n.
Proof.
  eapply Nat.le_trans; [apply filter_length_le|].
  rewrite length_firstn; lia.
Qed.

End WithFetch.

End PipelineMore.

Section ChainMore.

Import Chain ChainFacts.

(** X6.  Whenever [robust_search] returns, every element of the list it
    returns was in the list one of the five providers handed back for the
    query, and it passed the test of the loop: a string among them is no
    malformed pre-print URL.  This holds whatever the providers hand back
    and whatever the console does. *)
Theorem robust_search_returns_provider_urls
  (print : notice -> result unit) (self : Searchers) (query : str)
  (num_results : nat) (urls : list value) (u : value) :
  robust_search print self query num_results = Ok urls ->
  In u urls ->
  malformed u = Ok false
  /\ (forall s, u = VStr s -> malformed_arxiv s = false)
  /\ exists new_urls,
       In (Ok new_urls)
         [ brave_search self query;
           search_arvix self query num_results;
           semantic_search_scholar self query num_results;
           search_duckduckgo self query num_results;
           search_google self query num_results ]
       /\ In u new_urls.
Proof.
  intros E H; unfold robust_search, robust_search_trace in E.
  destruct (search_from_sound print query u _ _ _ E H)
    as [[]|(M & fn & new_urls & Hf & Hc & Hl)].
  split; [exact M|split].
  - intros s ->; rewrite malformed_str in M; congruence.
  - exists new_urls; split; [|exact Hl].
    rewrite <- Hc; cbn [search_functions map snd] in Hf.
    destruct Hf as [<-|[<-|[<-|[<-|[<-|[]]]]]]; cbn [In]; tauto.
Qed.

End ChainMore.

Section ExtractMore.

Import Extract PipelineMore.

(** X7.  When the direct fetch of a URL answers with status 200, the text
    returned is empty exactly when every paragraph of the page holds white
    space only. *)
Theorem fetch_full_text_empty_on_blank_page (w : Web) (url : str) page :
  malformed_arxiv url = false ->
  requests_get w url = Ok page ->
  page_status page = 200%Z ->
  (fetch_full_text w url = []
   <-> Forall (fun p => all_space p = true) (paragraphs page)).
Proof.
  intros Hm Hr Hs.
  unfold fetch_full_text, fetch_full_text_trace, direct_fetch.
  rewrite Hm, Hr, Hs; cbn [Z.eqb Pos.eqb fst].
  apply paragraph_text_empty.
Qed.

End ExtractMore.

Section AgentMore.

Import Agent PipelineMore.

Variable robust_search : str -> list str.
Variable fetch_full_text : str -> result str.
Variable cos_sim : str -> str -> Q.
Variable llm_ainvoke : str -> result str.

(** X8.  The sources of a result are those of the first two URLs found
    whose extraction gave a text that is not empty, in the order found: at
    most two, whatever the search returned. *)
Theorem sub_agent_fn_sources name query :
  sources (sub_agent_fn robust_search fetch_full_text cos_sim llm_ainvoke
             name query)
  = filter (scraped fetch_full_text) (firstn 2 (robust_search query))
  /\ length (sources (sub_agent_fn robust_search fetch_full_text cos_sim
                        llm_ainvoke name query)) <= 2.
Proof.
  assert (E : sources (sub_agent_fn robust_search fetch_full_text cos_sim
                         llm_ainvoke name query)
              = filter (scraped fetch_full_text)
                  (firstn 2 (robust_search query))).
  { unfold sub_agent_fn.
    destruct (robust_search query) as [|u urls]; [reflexivity|].
    cbn [nonempty negb].
    pose proof (scrape_sites fetch_full_text (firstn 2 (u :: urls)) [] [])
      as S.
    destruct (scrape fetch_full_text (firstn 2 (u :: urls)) [] [])
      as [contents sites].
    cbn [snd app] in S; subst sites.
    destruct (negb (nonempty contents)); reflexivity. }
  split; [exact E|].
  rewrite E; apply filter_firstn_length.
Qed.

(** X9.  A result without sources carries one of the two fixed
    placeholders and owes nothing to the language model; a result with
    sources carries the model's answer to a prompt built on a context of at
    most 9000 words, or, when the model raises, the placeholder that names
    the exception. *)
Theorem sub_agent_fn_result_text name query :
  let r := sub_agent_fn robust_search fetch_full_text cos_sim llm_ainvoke
             name query in
  (sources r = [] ->
     result_text r = name ++ lit ": No useful links found for query: " ++ query
     \/ result_text r = name ++ lit ": No content scraped for: " ++ query)
  /\ (sources r <> [] ->
      exists context,
        length (split context) <= MAX_WORD_LIMIT
        /\ result_text r
           = match llm_ainvoke (prompt_invoke name context) with
             | Ok a => a
             | Raise e => name ++ lit ": LLM failed to respond due to: " ++ e
             end).
Proof.
  unfold sub_agent_fn.
  destruct (robust_search query) as [|u urls].
  - cbn [nonempty negb sources result_text]; split; [now left|congruence].
  - cbn [nonempty negb].
    pose proof (scrape_same_length fetch_full_text (firstn 2 (u :: urls))
                  [] [] eq_refl) as L.
    destruct (scrape fetch_full_text (firstn 2 (u :: urls)) [] [])
      as [contents sites].
    cbn [fst snd] in L.
    destruct contents as [|c cs]; cbn [nonempty negb sources result_text].
    + split; [now right|].
      destruct sites; [congruence|discriminate].
    + split; [intros ->; discriminate|intros _].
      exists (truncate_context
                (Ranker.rank_and_select_contexts cos_sim query (c :: cs))).
      split; [|reflexivity].
      apply RankerMore.truncate_ranked.
Qed.

End AgentMore.

Lemma robust_search_returns_provider_urls_witness :
  Chain.malformed (VStr (lit "https://b.example/2")) = Ok false
  /\ (forall s, VStr (lit "https://b.example/2") = VStr s ->
      malformed_arxiv s = false)
  /\ exists new_urls,
       In (Ok new_urls)
         [ Chain.brave_search (Chain.searchers null_url_services) (lit "q");
           Chain.search_arvix (Chain.searchers null_url_services)
             (lit "q") 3;
           Chain.semantic_search_scholar (Chain.searchers null_url_services)
             (lit "q") 3;
           Chain.search_duckduckgo (Chain.searchers null_url_services)
             (lit "q") 3;
           Chain.search_google (Chain.searchers null_url_services)
             (lit "q") 3 ]
       /\ In (VStr (lit "https://b.example/2")) new_urls.
Proof.
  apply (robust_search_returns_provider_urls console
           (Chain.searchers null_url_services) (lit "q") 3
           [VStr (lit "https://a.example/1"); VStr (lit "https://b.example/2")]).
  - vm_compute; reflexivity.
  - right; left; reflexivity.
Defined.

Lemma fetch_full_text_empty_on_blank_page_witness :
  Extract.fetch_full_text blank_page (lit "https://a.example/1") = [].
Proof.
  apply (fetch_full_text_empty_on_blank_page blank_page
           (lit "https://a.example/1")
           {| Extract.page_status := 200;
              Extract.paragraphs := [lit "  "; [NL]; []] |}).
  - vm_compute; reflexivity.
  - reflexivity.
  - reflexivity.
  - repeat constructor.
Defined.

Lemma sub_agent_fn_result_text_witness :
  exists context,
    length (split context) <= MAX_WORD_LIMIT
    /\ Agent.result_text
         (Agent.sub_agent_fn two_links first_page_only by_length no_llm
            (lit "Intro") (lit "solar"))
       = match no_llm (Agent.prompt_invoke (lit "Intro") context) with
         | Ok a => a
         | Raise e => lit "Intro" ++ lit ": LLM failed to respond due to: " ++ e
         end.
Proof.
  apply (proj2 (sub_agent_fn_result_text two_links first_page_only by_length
                  no_llm (lit "Intro") (lit "solar"))).
  vm_compute; discriminate.
Defined.

(** ** More on the providers *)

Module ProvidersMore.

Import Providers ValueFacts.

Lemma brave_urls_dicts items :
  brave_urls (map VDict items)
  = Ok (filter truthy (map url_field items)).
Proof.
  induction items as [|r rest IH]; [reflexivity|].
  cbn [map brave_urls]; rewrite lookup_get, IH; cbn [bind].
  fold (url_field r); cbn [filter].
  now destruct (truthy (url_field r)).
Qed.

Lemma scholar_urls_dicts papers :
  scholar_urls (map VDict papers)
  = Ok (flat_map (fun paper => match lookup (lit "url") paper with
                               | Some u => [u]
                               | None => []
                               end) papers).
Proof.
  induction papers as [|p rest IH]; [reflexivity|].
  cbn [map scholar_urls py_in bind]; rewrite lookup_in.
  cbn [getitem flat_map].
  destruct (lookup (lit "url") p); cbn [bind]; rewrite IH; reflexivity.
Qed.







End ProvidersMore.

Section ProvidersShape.

Import Providers ValueFacts ProvidersMore.

(** X10.  On a response of the expected shape [brave_search] returns the
    values under ["url"] of the results, in order, leaving out the results
    that have no such key or an empty one; without the key ["web"], or
    without ["results"] under it, it returns the empty list. *)
Theorem brave_search_well_formed r results :
  raise_for_status r = Ok tt ->
  json r = Ok (VDict results) ->
  (forall web items,
     lookup (lit "web") results = Some (VDict web) ->
     lookup (lit "results") web = Some (VList (map VDict items)) ->
     brave_search (Ok r) = Ok (filter truthy (map url_field items)))
  /\ (lookup (lit "web") results = None -> brave_search (Ok r) = Ok [])
  /\ (forall web,
        lookup (lit "web") results = Some (VDict web) ->
        lookup (lit "results") web = None ->
        brave_search (Ok r) = Ok []).
Proof.
  intros Hs Hj; unfold brave_search.
  cbn [bind]; rewrite Hs, Hj; cbn [bind py_in]; rewrite lookup_in.
  split; [|split].
  - intros web items Hw Hr.
    repeat (rewrite ?Hw, ?Hr, ?lookup_in;
            cbn [getitem bind py_in py_iter try_except]).
    rewrite brave_urls_dicts; reflexivity.
  - intros Hw; rewrite Hw; reflexivity.
  - intros web Hw Hr.
    repeat (rewrite ?Hw, ?Hr, ?lookup_in;
            cbn [getitem bind py_in py_iter try_except]).
    reflexivity.
Qed.

(** X11.  On a response of the expected shape [semantic_search_scholar]
    returns the value under ["url"] of every paper that has the key, in
    order, a null one included; without the key ["data"] it returns the
    empty list. *)
Theorem semantic_search_scholar_well_formed r data :
  raise_for_status r = Ok tt ->
  json r = Ok (VDict data) ->
  (forall papers,
     lookup (lit "data") data = Some (VList (map VDict papers)) ->
     semantic_search_scholar (Ok r)
     = Ok (flat_map (fun paper => match lookup (lit "url") paper with
                                  | Some u => [u]
                                  | None => []
                                  end) papers))
  /\ (lookup (lit "data") data = None ->
      semantic_search_scholar (Ok r) = Ok []).
Proof.
  intros Hs Hj; unfold semantic_search_scholar.
  cbn [bind]; rewrite Hs, Hj; cbn [bind]; rewrite lookup_get.
  split.
  - intros papers Hd; rewrite Hd; cbn [bind py_iter].
    rewrite scholar_urls_dicts; reflexivity.
  - intros Hd; rewrite Hd; reflexivity.
Qed.



End ProvidersShape.

Lemma brave_search_well_formed_witness :
  Providers.brave_search (Ok brave_response)
  = Ok [VStr (lit "https://a.example/1")].
Proof.
  rewrite (proj1 (brave_search_well_formed brave_response brave_body
                    eq_refl eq_refl)
             [(lit "results", VList (map VDict brave_items))] brave_items
             eq_refl eq_refl).
  reflexivity.
Defined.

Lemma semantic_search_scholar_well_formed_witness :
  Providers.semantic_search_scholar (Ok scholar_response)
  = Ok [VStr (lit "https://a.example/1"); VNone].
Proof.
  rewrite (proj1 (semantic_search_scholar_well_formed scholar_response
                    [(lit "total", VInt 3);
                     (lit "data", VList (map VDict scholar_papers))]
                    eq_refl eq_refl)
             scholar_papers eq_refl).
  reflexivity.
Defined.



(** ** [extract_search_queries] *)

Module QueriesFacts.

Import Queries ValueFacts.

Lemma startswith_prefix p : forall s,
  startswith p s = true <-> exists b, s = p ++ b.
Proof.
  induction p as [|x p IH]; intros s; simpl.
  - split; [intros _; now exists s|reflexivity].
  - destruct s as [|y s].
    + split; [discriminate|intros [b E]; discriminate].
    + rewrite andb_true_iff, N.eqb_eq, IH; split.
      * intros [-> [b ->]]; now exists b.
      * intros [b [= -> ->]]; split; [reflexivity|now exists b].
Qed.

Lemma contains_occurrence sub : forall s,
  contains sub s = true <-> exists a b, s = a ++ sub ++ b.
Proof.
  induction s as [|x s IH]; simpl.
  - rewrite orb_false_r, startswith_prefix; split.
    + intros [b E]; now exists [], b.
    + intros (a & b & E).
      destruct a; [now exists b|discriminate].
  - rewrite orb_true_iff, startswith_prefix, IH; split.
    + intros [[b E]|(a & b & E)]; [now exists [], b|].
      exists (x :: a), b; now rewrite E.
    + intros (a & b & E).
      destruct a as [|y a]; [left; now exists b|right].
      injection E as -> ->; now exists a, b.
Qed.

Lemma contains_infix sub a g c :
  contains sub (a ++ g ++ c) = false -> contains sub g = false.
Proof.
  intros H; destruct (contains sub g) eqn:E; [|reflexivity].
  apply contains_occurrence in E as (x & y & ->).
  assert (T : contains sub (a ++ (x ++ sub ++ y) ++ c) = true).
  { apply contains_occurrence; exists (a ++ x), (y ++ c).
    now rewrite <- !app_assoc. }
  congruence.
Qed.

Lemma after_first_eq sep s :
  after_first sep s
  = if startswith sep s then Some (skipn (length sep) s)
    else match s with
         | [] => None
         | _ :: s' => after_first sep s'
         end.
Proof. destruct s; reflexivity. Qed.

Lemma skipn_prefix {A} (p b : list A) : skipn (length p) (p ++ b) = b.
Proof. induction p; simpl; auto. Qed.

(** Splitting at the first occurrence gives what follows it. *)
Lemma after_first_found sep post : forall pre,
  (forall a b, pre ++ sep ++ post = a ++ sep ++ b -> length pre <= length a) ->
  after_first sep (pre ++ sep ++ post) = Some post.
Proof.
  induction pre as [|c pre IH]; intros H; rewrite after_first_eq.
  - assert (S : startswith sep ([] ++ sep ++ post) = true)
      by (apply startswith_prefix; now exists post).
    rewrite S; simpl; now rewrite skipn_prefix.
  - destruct (startswith sep ((c :: pre) ++ sep ++ post)) eqn:S.
    + apply startswith_prefix in S as [b E].
      specialize (H [] b E); simpl in H; lia.
    + cbn [app]; apply IH.
      intros a b E.
      assert (E' : (c :: pre) ++ sep ++ post = (c :: a) ++ sep ++ b)
        by (simpl; now rewrite E).
      specialize (H _ _ E'); simpl in H; lia.
Qed.

Lemma upto_last_none c s : upto_last c s = None <-> ~ In c s.
Proof.
  induction s as [|x s IH]; simpl; [tauto|].
  destruct (upto_last c s) as [p|].
  - split; [discriminate|].
    intros H; exfalso.
    assert (N : ~ In c s) by tauto.
    apply IH in N; discriminate.
  - destruct (x =? c)%N eqn:E.
    + apply N.eqb_eq in E; split; [discriminate|tauto].
    + apply N.eqb_neq in E; split; [|reflexivity].
      intros _ [H|H]; [congruence|].
      now apply (proj1 IH).
Qed.

Lemma upto_last_found c b rest :
  ~ In c rest -> upto_last c (b ++ c :: rest) = Some (b ++ [c]).
Proof.
  intros H; induction b as [|x b IH]; simpl.
  - apply upto_last_none in H; rewrite H, N.eqb_refl; reflexivity.
  - now rewrite IH.
Qed.

(** The match goes from the first opening brace to the last closing one. *)
Lemma search_braces_found a b c :
  ~ In LBRACE a -> ~ In RBRACE c ->
  search_braces (a ++ LBRACE :: b ++ RBRACE :: c)
  = Some (LBRACE :: b ++ [RBRACE]).
Proof.
  intros Ha Hc; induction a as [|x a IH]; simpl.
  - now rewrite (upto_last_found RBRACE b c Hc).
  - destruct (x =? LBRACE)%N eqn:E.
    + apply N.eqb_eq in E; subst; exfalso; apply Ha; now left.
    + apply IH; intros H; apply Ha; now right.
Qed.

Lemma search_braces_none s :
  (forall a b c, s <> a ++ LBRACE :: b ++ RBRACE :: c) ->
  search_braces s = None.
Proof.
  induction s as [|x s IH]; intros H; [reflexivity|]; simpl.
  assert (Hs : forall a b c, s <> a ++ LBRACE :: b ++ RBRACE :: c).
  { intros a b c E; apply (H (x :: a) b c); simpl; now rewrite E. }
  destruct (x =? LBRACE)%N eqn:E; [|now apply IH].
  apply N.eqb_eq in E; subst x.
  destruct (upto_last RBRACE s) as [p|] eqn:U; [|now apply IH].
  exfalso.
  assert (Hin : In RBRACE s).
  { destruct (in_dec N.eq_dec RBRACE s) as [i|n]; [exact i|].
    apply upto_last_none in n; congruence. }
  apply in_split in Hin as (b & c & ->).
  now apply (H [] b c).
Qed.

(** A failed search shows that no opening brace has a closing one after
    it. *)
Lemma no_brace_pair_check s :
  search_braces s = None ->
  forall a b c, s <> a ++ LBRACE :: b ++ RBRACE :: c.
Proof.
  intros H a b c ->; revert H.
  assert (U : upto_last RBRACE (b ++ RBRACE :: c) <> None).
  { intros N; apply upto_last_none in N.
    apply N, in_or_app; right; now left. }
  induction a as [|x a IH]; simpl.
  - destruct (upto_last RBRACE (b ++ RBRACE :: c)); [discriminate|congruence].
  - destruct (x =? LBRACE)%N; [|exact IH].
    destruct (upto_last RBRACE (a ++ LBRACE :: b ++ RBRACE :: c)) eqn:E;
      [discriminate|exact IH].
Qed.

(** A computed split at the tag shows that the tag is the first one. *)
Lemma after_first_length sep b : forall a t,
  after_first sep (a ++ sep ++ b) = Some t -> length b <= length t.
Proof.
  induction a as [|x a IH]; intros t; rewrite after_first_eq.
  - assert (S : startswith sep ([] ++ sep ++ b) = true)
      by (apply startswith_prefix; now exists b).
    rewrite S; simpl; rewrite skipn_prefix; now intros [= <-].
  - destruct (startswith sep ((x :: a) ++ sep ++ b)) eqn:S.
    + intros [= <-]; rewrite length_skipn; cbn [app length].
      rewrite !length_app; lia.
    + cbn [app]; apply IH.
Qed.

Lemma first_tag_after_check pre post :
  after_first think_end_tag (pre ++ think_end_tag ++ post) = Some post ->
  first_tag_after pre post.
Proof.
  intros H a b E; rewrite E in H.
  apply after_first_length in H.
  apply (f_equal (@length N)) in E; rewrite !length_app in E; lia.
Qed.

End QueriesFacts.

Section ExtractSearchQueries.

Import Queries ValueFacts QueriesFacts.

Variable json_loads : str -> result value.
Variable str_of : value -> str.

Let extract := extract_search_queries json_loads str_of.

(** X14.  Whenever [extract_search_queries] returns a dictionary, the
    dictionary has the key ["organizedSearchQueries"]. *)
Theorem extract_search_queries_organized raw_text kv :
  extract raw_text = Ok (VDict kv) ->
  exists v, lookup (lit "organizedSearchQueries") kv = Some v.
Proof.
  unfold extract, extract_search_queries.
  destruct (search_braces _) as [group|]; [|discriminate].
  destruct (json_loads group) as [data|e]; [|discriminate].
  cbn [try_except bind].
  destruct (py_in (lit "organizedSearchQueries") data) as [[|]|e] eqn:I;
    cbn [bind negb]; [| |discriminate].
  - intros [= ->]; rewrite py_in_dict in I.
    destruct (lookup (lit "organizedSearchQueries") kv); [eauto|discriminate].
  - destruct (py_in (lit "searchQueries") data) as [[|]|e]; cbn [bind];
      [|discriminate|discriminate].
    destruct (py_get data (lit "topic") (VStr [])); cbn [bind];
      [|discriminate].
    destruct (py_get data (lit "topic") (VStr (lit "football"))); cbn [bind];
      [|discriminate].
    destruct (getitem data (lit "searchQueries")); cbn [bind];
      [|discriminate].
    intros [= <-]; eexists; vm_compute; reflexivity.
Qed.

(** X15.  For every response, with or without the closing tag of a
    reasoning: when the object found in the answer, which is the response
    itself or what follows the first tag, stripped, decodes to a dictionary
    that has ["searchQueries"] and not ["organizedSearchQueries"], it is
    wrapped: the queries are found again under organizedSearchQueries /
    Introduction / queries, the topic is kept, or is the empty string when
    there is none, and without a topic the question asks for the beginning
    of football. *)
Theorem extract_search_queries_wraps_flat_list raw_text group kv queries :
  search_braces
    (if contains think_end_tag raw_text
     then strip (split1_last think_end_tag raw_text)
     else raw_text) = Some group ->
  json_loads group = Ok (VDict kv) ->
  lookup (lit "organizedSearchQueries") kv = None ->
  lookup (lit "searchQueries") kv = Some queries ->
  (data <- extract raw_text ;;
   organized <- getitem data (lit "organizedSearchQueries") ;;
   introduction <- getitem organized (lit "Introduction") ;;
   getitem introduction (lit "queries")) = Ok queries
  /\ (data <- extract raw_text ;; getitem data (lit "topic"))
     = Ok (match lookup (lit "topic") kv with
           | Some t => t
           | None => VStr []
           end)
  /\ (lookup (lit "topic") kv = None ->
      (data <- extract raw_text ;;
       organized <- getitem data (lit "organizedSearchQueries") ;;
       introduction <- getitem organized (lit "Introduction") ;;
       getitem introduction (lit "question"))
      = Ok (VStr (lit "What is the beginning of football?"))).
Proof.
  intros Hs Hj Ho Hq.
  assert (E : extract raw_text
              = Ok (wrapped str_of
                      (match lookup (lit "topic") kv with
                       | Some t => t | None => VStr [] end)
                      (match lookup (lit "topic") kv with
                       | Some t => t | None => VStr (lit "football") end)
                      queries)).
  { unfold extract, extract_search_queries.
    rewrite Hs, Hj; cbn [try_except bind py_in].
    rewrite !lookup_in, Ho, Hq; cbn [negb bind py_get getitem].
    rewrite Hq.
    destruct (lookup (lit "topic") kv); reflexivity. }
  rewrite E; split; [|split].
  - vm_compute; reflexivity.
  - vm_compute; reflexivity.
  - intros ->; vm_compute; reflexivity.
Qed.

(** X16.  A response without the closing tag in which no opening brace is
    followed by a closing brace raises the error that no JSON object was
    found, whatever the decoder would do. *)
Theorem extract_search_queries_without_braces raw_text :
  contains think_end_tag raw_text = false ->
  (forall a b c, raw_text <> a ++ LBRACE :: b ++ RBRACE :: c) ->
  extract raw_text = Raise no_json_object.
Proof.
  intros Ht H; unfold extract, extract_search_queries.
  now rewrite Ht, (search_braces_none _ H).
Qed.

(** X17.  Text before the first opening brace and after the last closing
    brace is ignored: the result is that of the stretch between them. *)
Theorem extract_search_queries_ignores_surrounding_text a b c :
  ~ In LBRACE a -> ~ In RBRACE c ->
  contains think_end_tag (a ++ (LBRACE :: b ++ [RBRACE]) ++ c) = false ->
  extract (a ++ (LBRACE :: b ++ [RBRACE]) ++ c)
  = extract (LBRACE :: b ++ [RBRACE]).
Proof.
  intros Ha Hc Ht.
  pose proof (contains_infix _ _ _ _ Ht) as Hg.
  unfold extract, extract_search_queries; rewrite Ht, Hg.
  replace (a ++ (LBRACE :: b ++ [RBRACE]) ++ c)
    with (a ++ LBRACE :: b ++ RBRACE :: c)
    by (simpl; now rewrite <- app_assoc).
  rewrite (search_braces_found a b c Ha Hc).
  replace (LBRACE :: b ++ [RBRACE]) with ([] ++ LBRACE :: b ++ RBRACE :: [])
    at 2 by reflexivity.
  rewrite (search_braces_found [] b []) by (intros []).
  reflexivity.
Qed.

(** X18.  Everything before the first closing tag of the reasoning is
    dropped, braces in it included: the result is that of the response
    that begins at the tag. *)
Theorem extract_search_queries_drops_reasoning pre post :
  first_tag_after pre post ->
  extract (pre ++ think_end_tag ++ post) = extract (think_end_tag ++ post).
Proof.
  intros H.
  assert (C : forall p, contains think_end_tag (p ++ think_end_tag ++ post)
                        = true).
  { intros p; apply contains_occurrence; now exists p, post. }
  assert (H0 : first_tag_after [] post) by (intros a b _; apply Nat.le_0_l).
  unfold extract, extract_search_queries, split1_last.
  rewrite (C pre), (after_first_found _ _ _ H).
  change (think_end_tag ++ post) with ([] ++ think_end_tag ++ post).
  rewrite (C []), (after_first_found _ _ _ H0).
  reflexivity.
Qed.

End ExtractSearchQueries.

Lemma extract_search_queries_organized_witness :
  exists v,
    lookup (lit "organizedSearchQueries")
      [ (lit "topic", VStr []);
        (lit "organizedSearchQueries",
         VDict
           [ (lit "Introduction",
              VDict
                [ (lit "question",
                   VStr (lit "What is the beginning of football?"));
                  (lit "queries", flat_queries) ]) ]) ]
    = Some v.
Proof.
  apply (extract_search_queries_organized toy_loads toy_str flat_json).
  vm_compute; reflexivity.
Defined.

Lemma extract_search_queries_wraps_flat_list_witness :
  (data <- Queries.extract_search_queries toy_loads toy_str
             (reasoning ++ Queries.think_end_tag ++ flat_json) ;;
   organized <- getitem data (lit "organizedSearchQueries") ;;
   introduction <- getitem organized (lit "Introduction") ;;
   getitem introduction (lit "queries")) = Ok flat_queries.
Proof.
  apply (proj1 (extract_search_queries_wraps_flat_list toy_loads toy_str
                  (reasoning ++ Queries.think_end_tag ++ flat_json) flat_json
                  [(lit "searchQueries", flat_queries)] flat_queries
                  eq_refl eq_refl eq_refl eq_refl)).
Defined.

Lemma extract_search_queries_without_braces_witness :
  Queries.extract_search_queries toy_loads toy_str (lit "no object } here {")
  = Raise Queries.no_json_object.
Proof.
  apply (extract_search_queries_without_braces toy_loads toy_str).
  - reflexivity.
  - apply QueriesFacts.no_brace_pair_check; reflexivity.
Defined.

Lemma extract_search_queries_ignores_surrounding_text_witness :
  Queries.extract_search_queries toy_loads toy_str
    (lit "Here you go: " ++ flat_json ++ lit " Done.")
  = Queries.extract_search_queries toy_loads toy_str flat_json.
Proof.
  apply (extract_search_queries_ignores_surrounding_text toy_loads toy_str
           (lit "Here you go: ")
           (quoted (lit "searchQueries") ++ lit ": ["
            ++ quoted (lit "solar storage") ++ lit "]")
           (lit " Done.")).
  - vm_compute; intuition discriminate.
  - vm_compute; intuition discriminate.
  - vm_compute; reflexivity.
Defined.

Lemma extract_search_queries_drops_reasoning_witness :
  Queries.extract_search_queries toy_loads toy_str
    (reasoning ++ Queries.think_end_tag ++ flat_json)
  = Queries.extract_search_queries toy_loads toy_str
      (Queries.think_end_tag ++ flat_json).
Proof.
  apply (extract_search_queries_drops_reasoning toy_loads toy_str).
  apply QueriesFacts.first_tag_after_check.
  vm_compute; reflexivity.
Defined.

(** ** The sources and the file name of the PDF report *)

Module PdfFacts.

Import Pdf.

Lemma pad_from_repeat missing : forall l,
  pad_from missing l = l ++ repeat (VList []) missing.
Proof.
  induction missing as [|k IH]; intros l; simpl.
  - now rewrite app_nil_r.
  - rewrite IH, <- app_assoc; reflexivity.
Qed.

Lemma map_fst_combine {A B} (a : list A) : forall (b : list B),
  length a <= length b -> map fst (combine a b) = a.
Proof.
  induction a as [|x a IH]; intros b H; [reflexivity|].
  destruct b as [|y b]; simpl in *; [lia|].
  rewrite IH by lia; reflexivity.
Qed.

Lemma map_snd_combine {A B} (a : list A) : forall (b : list B),
  map snd (combine a b) = firstn (length a) b.
Proof.
  induction a as [|x a IH]; intros [|y b]; simpl; try reflexivity.
  now rewrite IH.
Qed.

Lemma sources_list_padded final_report :
  sources_list final_report
  = validated final_report
    ++ repeat (VList []) (length section_names - length (validated final_report)).
Proof. unfold sources_list; apply pad_from_repeat. Qed.

Lemma validated_lists final_report :
  Forall (fun s => isinstance_list s = true) (validated final_report).
Proof.
  unfold validated.
  destruct (match lookup (lit "Sources Section") final_report with
            | Some v => v | None => VList [] end);
    try (repeat constructor).
  destruct (existsb (fun s => negb (isinstance_list s)) l) eqn:E;
    [repeat constructor|].
  apply Forall_forall; intros s Hs.
  destruct (isinstance_list s) eqn:Es; [reflexivity|].
  assert (T : existsb (fun s => negb (isinstance_list s)) l = true).
  { apply existsb_exists; exists s; split; [exact Hs|now rewrite Es]. }
  congruence.
Qed.

Lemma sources_list_long final_report :
  length section_names <= length (sources_list final_report).
Proof.
  rewrite sources_list_padded, length_app, repeat_length; lia.
Qed.

(** [s.replace(a, b)] for single characters changes each [a] into [b]. *)
Lemma split_sep_char_nonempty a s : forall cur,
  split_sep_from [a] 0 cur s <> [].
Proof.
  induction s as [|c s IH]; intros cur; simpl; [discriminate|].
  destruct ((a =? c)%N && true); [discriminate|apply IH].
Qed.

Lemma replace_char_from a b s : forall cur,
  join [b] (split_sep_from [a] 0 cur s)
  = rev cur ++ map (fun c => if (c =? a)%N then b else c) s.
Proof.
  induction s as [|c s IH]; intros cur.
  - simpl; now rewrite app_nil_r.
  - cbn [split_sep_from startswith length Nat.sub map].
    rewrite andb_true_r, N.eqb_sym.
    destruct (c =? a)%N.
    + pose proof (split_sep_char_nonempty a s []) as Hne.
      specialize (IH []).
      destruct (split_sep_from [a] 0 [] s) as [|p l]; [congruence|].
      change (join [b] (rev cur :: p :: l))
        with (rev cur ++ [b] ++ join [b] (p :: l)).
      rewrite IH; reflexivity.
    + rewrite IH; cbn [rev]; rewrite <- app_assoc; reflexivity.
Qed.

Lemma replace_char a b s :
  replace [a] [b] s = map (fun c => if (c =? a)%N then b else c) s.
Proof. unfold replace, split_sep; apply (replace_char_from a b s []). Qed.

End PdfFacts.

Section PdfReport.

Import Pdf PdfFacts.

(** X19.  Whatever the report holds, the list of pairs
    [zip(section_names, sources_list)] that the loop over the sources is
    given has exactly five pairs, one for each section name in the fixed
    order, and the second component of each pair is a list.  The statement
    is about that list as lines 346 to 356 compute it from the report; the
    paragraphs the function builds before and inside the loop are no part
    of it. *)
Theorem pdf_sources_always_five final_report :
  map fst (sources_by_section final_report) = section_names
  /\ length (sources_by_section final_report) = 5
  /\ Forall (fun s => isinstance_list s = true)
       (map snd (sources_by_section final_report)).
Proof.
  unfold sources_by_section.
  pose proof (sources_list_long final_report) as L.
  split; [now apply map_fst_combine|].
  split.
  - rewrite length_combine, Nat.min_l by exact L; reflexivity.
  - rewrite map_snd_combine; apply Forall_firstn.
    rewrite sources_list_padded; apply Forall_app; split.
    + apply validated_lists.
    + apply Forall_forall; intros s Hs.
      apply repeat_spec in Hs; subst; reflexivity.
Qed.

(** X20.  A ["Sources Section"] that is a list of lists gives its first
    five lists, with empty lists for the missing ones: lists after the
    fifth are dropped.  One element that is not a list, a value that is
    not a list, or no such key gives five empty lists. *)
Theorem pdf_sources_kept_or_discarded final_report :
  (forall l,
     lookup (lit "Sources Section") final_report = Some (VList l) ->
     Forall (fun s => isinstance_list s = true) l ->
     map snd (sources_by_section final_report)
     = firstn 5 (l ++ repeat (VList []) (5 - length l)))
  /\ (forall l s,
        lookup (lit "Sources Section") final_report = Some (VList l) ->
        In s l -> isinstance_list s = false ->
        map snd (sources_by_section final_report) = repeat (VList []) 5)
  /\ (forall v,
        lookup (lit "Sources Section") final_report = Some v ->
        isinstance_list v = false ->
        map snd (sources_by_section final_report) = repeat (VList []) 5)
  /\ (lookup (lit "Sources Section") final_report = None ->
      map snd (sources_by_section final_report) = repeat (VList []) 5).
Proof.
  unfold sources_by_section; rewrite map_snd_combine, sources_list_padded.
  unfold validated.
  split; [|split; [|split]].
  - intros l -> Hl.
    replace (existsb (fun s => negb (isinstance_list s)) l) with false;
      [reflexivity|].
    symmetry; apply not_true_is_false; intros E.
    apply existsb_exists in E as (s & Hs & Hn).
    rewrite Forall_forall in Hl; rewrite (Hl s Hs) in Hn; discriminate.
  - intros l s -> Hs Hn.
    replace (existsb (fun s => negb (isinstance_list s)) l) with true;
      [reflexivity|].
    symmetry; apply existsb_exists; exists s; split; [exact Hs|].
    now rewrite Hn.
  - intros v -> Hv; destruct v; try reflexivity; discriminate.
  - intros ->; reflexivity.
Qed.

(** X21.  In the file name only the spaces of the query are replaced: the
    query keeps its length and every other character, a path separator or
    a line break included, goes into the name; the name has no space when
    the time stamp and the suffix have none. *)
Theorem pdf_filename_keeps_all_but_spaces query timestamp unique_suffix :
  safe_query query
  = map (fun c => if (c =? 0x20)%N then 0x5f%N else c) query
  /\ length (safe_query query) = length query
  /\ (~ In 0x20%N timestamp -> ~ In 0x20%N unique_suffix ->
      ~ In 0x20%N (filename query timestamp unique_suffix))
  /\ (forall c, c <> 0x20%N -> In c query ->
        In c (filename query timestamp unique_suffix)).
Proof.
  assert (E : safe_query query
              = map (fun c => if (c =? 0x20)%N then 0x5f%N else c) query)
    by apply replace_char.
  assert (S : ~ In 0x20%N (safe_query query)).
  { rewrite E; intros H; apply in_map_iff in H as (c & Hc & _).
    destruct (c =? 0x20)%N eqn:Ec; [discriminate|].
    apply N.eqb_neq in Ec; congruence. }
  split; [exact E|].
  split; [rewrite E; apply length_map|].
  split.
  - intros Ht Hu H; unfold filename in H.
    repeat (apply in_app_or in H as [H|H]); try contradiction;
      revert H; vm_compute; intuition discriminate.
  - intros c Hc Hin; unfold filename.
    apply in_or_app; right; apply in_or_app; left.
    rewrite E; apply in_map_iff; exists c; split; [|exact Hin].
    apply N.eqb_neq in Hc; now rewrite Hc.
Qed.

End PdfReport.

Lemma pdf_sources_kept_or_discarded_witness :
  map snd (Pdf.sources_by_section small_report)
  = [ VList [VStr (lit "https://a.example/1")]; VList [];
      VList []; VList []; VList [] ]
  /\ map snd (Pdf.sources_by_section bad_sources_report)
     = repeat (VList []) 5.
Proof.
  split.
  - rewrite (proj1 (pdf_sources_kept_or_discarded small_report)
               [VList [VStr (lit "https://a.example/1")]; VList []]
               eq_refl).
    + reflexivity.
    + repeat constructor.
  - apply (proj1 (proj2 (pdf_sources_kept_or_discarded bad_sources_report))
             [VList [VStr (lit "https://a.example/1")];
              VStr (lit "https://b.example/2")]
             (VStr (lit "https://b.example/2")) eq_refl).
    + right; left; reflexivity.
    + reflexivity.
Defined.

Lemma pdf_filename_keeps_all_but_spaces_witness :
  In 0x2f%N (Pdf.filename (lit "solar energy/storage")
               (lit "20261103_101500") (lit "a1b2c3"))
  /\ ~ In 0x20%N (Pdf.filename (lit "solar energy/storage")
                    (lit "20261103_101500") (lit "a1b2c3")).
Proof.
  destruct (pdf_filename_keeps_all_but_spaces (lit "solar energy/storage")
              (lit "20261103_101500") (lit "a1b2c3")) as (_ & _ & S & K).
  split.
  - apply K; [discriminate|vm_compute; intuition].
  - apply S; vm_compute; intuition discriminate.
Defined.

(** ** The record store *)

Module StoreFacts.

Import Sqlite SqliteFacts Store.

Lemma select_where_absent {R} (column : R -> str) v table :
  ~ In v (map column table) -> select_where column v table = [].
Proof.
  unfold select_where; induction table as [|r t IH]; [reflexivity|].
  intros H; simpl.
  rewrite eqb_str_neq by (intros E; apply H; now left).
  apply IH; intros Hin; apply H; now right.
Qed.

Lemma select_where_app {R} (column : R -> str) v a b :
  select_where column v (a ++ b)
  = select_where column v a ++ select_where column v b.
Proof. apply filter_app. Qed.

(** With unique keys a selection by key has at most one row. *)
Lemma select_where_unique {R} (key : R -> str) v table :
  NoDup (map key table) ->
  select_where key v table
  = match hd_error (select_where key v table) with
    | Some r => [r]
    | None => []
    end.
Proof.
  unfold select_where; induction table as [|r t IH]; [reflexivity|].
  intros H; inversion H as [|? ? Hr Ht]; subst; simpl.
  destruct (eqb_str (key r) v) eqn:E; [|now apply IH].
  apply ArvixFacts.eqb_str_eq in E; subst v; simpl.
  pose proof (select_where_absent key (key r) t Hr) as A.
  unfold select_where in A; now rewrite A.
Qed.

(** What [get_session_data] returns when it returns. *)
Lemma get_session_data_inv eng db session data :
  get_session_data eng db session = Ok data ->
  data
  = {| sd_session :=
         hd_error (select_where session_id session (sessions db));
       sd_queries :=
         select_where rq_session_id session (research_queries db);
       sd_structures :=
         select_where rs_session_id session (research_structure db);
       sd_worker_results :=
         hd_error (select_where wr_session_id session (worker_results db));
       sd_reports := select_where session_id session (sessions db) |}.
Proof.
  unfold get_session_data.
  destruct (stage (connect eng)) as [[]|e]; cbn [bind]; [|discriminate].
  destruct (execute eng 0 _) as [[]|e]; cbn [bind]; [|discriminate].
  destruct (execute eng 1 _) as [[]|e]; cbn [bind]; [|discriminate].
  destruct (execute eng 2 _) as [[]|e]; cbn [bind]; [|discriminate].
  destruct (execute eng 3 _) as [[]|e]; cbn [bind]; [|discriminate].
  destruct (execute eng 4 _) as [[]|e]; cbn [bind]; [|discriminate].
  intros [= <-]; reflexivity.
Qed.

(** It returns on an engine that objects to nothing, for a session
    identifier that has an encoding. *)
Lemma get_session_data_performs eng db session :
  performs eng ->
  encodable session = true ->
  get_session_data eng db session
  = Ok {| sd_session :=
            hd_error (select_where session_id session (sessions db));
          sd_queries :=
            select_where rq_session_id session (research_queries db);
          sd_structures :=
            select_where rs_session_id session (research_structure db);
          sd_worker_results :=
            hd_error (select_where wr_session_id session (worker_results db));
          sd_reports := select_where session_id session (sessions db) |}.
Proof.
  intros P H; pose proof P as (C & _).
  unfold get_session_data; rewrite C; cbn [stage bind].
  rewrite !(execute_performs _ _ _ P); cbn [bind_all].
  rewrite (bind_text_ok _ H); reflexivity.
Qed.

(** And it raises for one that has none. *)
Lemma get_session_data_refused eng db session :
  performs eng ->
  encodable session = false ->
  get_session_data eng db session = Raise UnicodeEncodeError.
Proof.
  intros P H; pose proof P as (C & _).
  unfold get_session_data; rewrite C; cbn [stage bind].
  rewrite (execute_performs _ _ _ P); cbn [bind_all].
  rewrite (bind_text_refused _ H); reflexivity.
Qed.

(** Two databases with the same rows for a session give the same data. *)
Lemma get_session_data_same eng db db' session :
  select_where session_id session (sessions db')
  = select_where session_id session (sessions db) ->
  select_where rq_session_id session (research_queries db')
  = select_where rq_session_id session (research_queries db) ->
  select_where rs_session_id session (research_structure db')
  = select_where rs_session_id session (research_structure db) ->
  select_where wr_session_id session (worker_results db')
  = select_where wr_session_id session (worker_results db) ->
  get_session_data eng db' session = get_session_data eng db session.
Proof.
  intros S Q T W; unfold get_session_data.
  destruct (stage (connect eng)) as [[]|e]; cbn [bind]; [|reflexivity].
  destruct (execute eng 0 _) as [[]|e]; cbn [bind]; [|reflexivity].
  destruct (execute eng 1 _) as [[]|e]; cbn [bind]; [|reflexivity].
  destruct (execute eng 2 _) as [[]|e]; cbn [bind]; [|reflexivity].
  destruct (execute eng 3 _) as [[]|e]; cbn [bind]; [|reflexivity].
  destruct (execute eng 4 _) as [[]|e]; cbn [bind]; [|reflexivity].
  now rewrite S, Q, T, W.
Qed.

Lemma insert_recent_perm s l : Permutation (insert_recent s l) (s :: l).
Proof.
  induction l as [|t l IH]; simpl; [apply Permutation_refl|].
  destruct (last_accessed t <=? last_accessed s)%N;
    [apply Permutation_refl|].
  eapply perm_trans; [apply perm_skip, IH|apply perm_swap].
Qed.

Lemma order_by_recent_perm l : Permutation (order_by_recent l) l.
Proof.
  induction l as [|s l IH]; simpl; [constructor|].
  eapply perm_trans; [apply insert_recent_perm|apply perm_skip, IH].
Qed.

Lemma insert_recent_sorted s l :
  StronglySorted recent l -> StronglySorted recent (insert_recent s l).
Proof.
  induction 1 as [|t l Hs IH Ht]; simpl; [repeat constructor|].
  destruct (last_accessed t <=? last_accessed s)%N eqn:E.
  - apply N.leb_le in E.
    constructor; [constructor; assumption|].
    constructor; [exact E|].
    eapply Forall_impl; [|exact Ht].
    intros z Hz; unfold recent in *; lia.
  - apply N.leb_gt in E.
    constructor; [exact IH|].
    eapply Permutation_Forall;
      [apply Permutation_sym, insert_recent_perm|].
    constructor; [unfold recent; lia|exact Ht].
Qed.

Lemma order_by_recent_sorted l : StronglySorted recent (order_by_recent l).
Proof.
  induction l; simpl; [constructor|now apply insert_recent_sorted].
Qed.

Lemma firstn_sorted {A} (R : A -> A -> Prop) n : forall l,
  StronglySorted R l -> StronglySorted R (firstn n l).
Proof.
  induction n as [|n IH]; intros l H; [constructor|].
  destruct l as [|x l]; [constructor|].
  inversion H as [|? ? Hs Hx]; subst; simpl.
  constructor; [now apply IH|].
  apply Forall_firstn; exact Hx.
Qed.

Lemma limit_rows_sorted limit l :
  StronglySorted recent l -> StronglySorted recent (limit_rows limit l).
Proof.
  unfold limit_rows; destruct (limit <? 0)%Z; [auto|apply firstn_sorted].
Qed.

Lemma limit_rows_in {R} limit (l : list R) r :
  In r (limit_rows limit l) -> In r l.
Proof.
  unfold limit_rows; destruct (limit <? 0)%Z; [auto|].
  intros H; rewrite <- (firstn_skipn (Z.to_nat limit) l).
  apply in_or_app; now left.
Qed.

(** [get_user_session] on an engine that objects to nothing. *)
Lemma get_user_session_performs eng db user limit :
  performs eng ->
  encodable user = true ->
  int64 limit = true ->
  get_user_session eng db user limit
  = Ok (map listed
          (limit_rows limit
             (order_by_recent (filter (of_user user) (sessions db))))).
Proof.
  intros P Hu Hl; pose proof P as (C & _).
  unfold get_user_session; rewrite C; cbn [stage bind].
  rewrite (execute_performs _ _ _ P); cbn [bind_all].
  rewrite (bind_text_ok _ Hu); cbn [bind].
  rewrite (bind_int_ok _ Hl); reflexivity.
Qed.

Lemma update_session_access_performs eng db now session :
  performs eng ->
  encodable session = true ->
  update_session_access eng db now session
  = ({| sessions := map (touch now session) (sessions db);
        research_queries := research_queries db;
        research_structure := research_structure db;
        worker_results := worker_results db |},
     Ok tt).
Proof.
  intros P H; pose proof P as (C & _ & _ & M).
  unfold update_session_access; rewrite C; cbn [stage bind].
  rewrite (execute_performs _ _ _ P); cbn [bind_all].
  rewrite (bind_text_ok _ H); cbn [bind]; rewrite M; reflexivity.
Qed.

End StoreFacts.

Section StoreProperties.

Import Sqlite SqliteFacts Store StoreFacts.

Variable json_dumps : value -> result str.

(** X22.  On an engine that objects to nothing, with a metadata that
    [json.dumps] encodes and an identifier that has an encoding:
    [create_session] raises and stores nothing when the user has no
    encoding in UTF-8; when the user and the text of the metadata have
    one and the identifier is new, it returns the identifier, and
    [get_session_data] then finds the new session: active, created and
    last accessed now, with the given user.  The data of every other
    session are as before, and a missing or empty metadata is stored as
    NULL. *)
Theorem create_session_then_get eng eng' db uuid4 now user meta text :
  performs eng ->
  metadata_text json_dumps meta = Ok text ->
  encodable uuid4 = true ->
  (encodable_or_null user = false ->
   create_session json_dumps eng db uuid4 now user meta
   = (db, Raise UnicodeEncodeError))
  /\ (encodable_or_null user = true ->
      encodable_or_null text = true ->
      ~ In uuid4 (map session_id (sessions db)) ->
      performs eng' ->
      let row := {| session_id := uuid4; user_id := user; created_at := now;
                    last_accessed := now; status := lit "active";
                    metadata := text |} in
      exists db' data,
        create_session json_dumps eng db uuid4 now user meta
        = (db', Ok uuid4)
        /\ get_session_data eng' db' uuid4 = Ok data
        /\ sd_session data = Some row
        /\ sd_queries data
           = select_where rq_session_id uuid4 (research_queries db)
        /\ (forall other, other <> uuid4 ->
              get_session_data eng' db' other
              = get_session_data eng' db other)
        /\ ((meta = None \/ meta = Some []) -> metadata row = None)).
Proof.
  intros P Hm Hu; pose proof P as (C & _ & _ & M).
  split.
  - intros Hx; unfold create_session.
    destruct user as [u|]; [|discriminate].
    rewrite C; cbn [stage bind]; rewrite Hm; cbn [bind].
    rewrite (execute_performs _ _ _ P); cbn [bind_all].
    rewrite (bind_text_ok _ Hu); cbn [bind bind_optional].
    rewrite (bind_text_refused _ Hx); reflexivity.
  - intros Hx Ht Hf P' row.
    assert (E : create_session json_dumps eng db uuid4 now user meta
                = ({| sessions := sessions db ++ [row];
                      research_queries := research_queries db;
                      research_structure := research_structure db;
                      worker_results := worker_results db |}, Ok uuid4)).
    { unfold create_session.
      rewrite C; cbn [stage bind]; rewrite Hm; cbn [bind].
      rewrite (execute_performs _ _ _ P); cbn [bind_all].
      rewrite (bind_text_ok _ Hu), (bind_optional_ok _ Hx),
        (bind_optional_ok _ Ht); cbn [bind].
      fold row; rewrite (insert_fresh session_id row (sessions db) Hf).
      cbn [bind]; rewrite M; reflexivity. }
    eexists; eexists; split; [exact E|].
    split; [apply (get_session_data_performs _ _ _ P' Hu)|].
    cbn [sessions research_queries research_structure worker_results
         sd_session sd_queries].
    rewrite select_where_app, (select_where_absent _ _ _ Hf).
    split; [simpl; now rewrite eqb_str_refl|].
    split; [reflexivity|].
    split.
    + intros other Ho; apply get_session_data_same; try reflexivity.
      cbn [sessions]; rewrite select_where_app.
      unfold select_where at 2; simpl.
      rewrite (eqb_str_neq uuid4 other) by congruence.
      now rewrite app_nil_r.
    + intros [->| ->]; simpl in Hm; injection Hm as <-; reflexivity.
Qed.

(** X23.  On an engine that objects to nothing, with queries that
    [json.dumps] encodes and an identifier that has an encoding:
    [save_research_queries] raises and stores nothing when the session
    identifier or the original query has no encoding in UTF-8; when they
    and the encoded text have one and the identifier is new, it returns
    the identifier, whether the session exists or not, and
    [get_session_data] then lists the new row after the earlier queries of
    that session; other sessions see no change. *)
Theorem save_research_queries_then_get
  eng eng' db uuid4 now session original generated text :
  performs eng ->
  json_dumps (VList (map VStr generated)) = Ok text ->
  encodable uuid4 = true ->
  (encodable session && encodable original = false ->
   save_research_queries json_dumps eng db uuid4 now session original
     generated
   = (db, Raise UnicodeEncodeError))
  /\ (encodable session = true ->
      encodable original = true ->
      encodable text = true ->
      ~ In uuid4 (map query_id (research_queries db)) ->
      performs eng' ->
      exists db' data data',
        save_research_queries json_dumps eng db uuid4 now session original
          generated
        = (db', Ok uuid4)
        /\ get_session_data eng' db session = Ok data
        /\ get_session_data eng' db' session = Ok data'
        /\ sd_queries data'
           = sd_queries data
             ++ [ {| query_id := uuid4; rq_session_id := session;
                     original_query := original; generated_queries := text;
                     rq_created_at := now |} ]
        /\ sd_session data' = sd_session data
        /\ (forall other, other <> session ->
              get_session_data eng' db' other
              = get_session_data eng' db other)).
Proof.
  intros P Hj Hu; pose proof P as (C & _ & _ & M).
  split.
  - intros Hx; unfold save_research_queries.
    rewrite C; cbn [stage bind]; rewrite Hj; cbn [bind].
    rewrite (execute_performs _ _ _ P); cbn [bind_all].
    rewrite (bind_text_ok _ Hu); cbn [bind].
    unfold bind_text at 1.
    destruct (encodable session); cbn [bind]; [|reflexivity].
    cbn [andb] in Hx; rewrite (bind_text_refused _ Hx); reflexivity.
  - intros Hs Ho Ht Hf P'.
    set (row := {| query_id := uuid4; rq_session_id := session;
                   original_query := original; generated_queries := text;
                   rq_created_at := now |}).
    assert (E : save_research_queries json_dumps eng db uuid4 now session
                  original generated
                = ({| sessions := sessions db;
                      research_queries := research_queries db ++ [row];
                      research_structure := research_structure db;
                      worker_results := worker_results db |}, Ok uuid4)).
    { unfold save_research_queries.
      rewrite C; cbn [stage bind]; rewrite Hj; cbn [bind].
      rewrite (execute_performs _ _ _ P); cbn [bind_all].
      rewrite !bind_text_ok by assumption; cbn [bind].
      fold row; rewrite (insert_fresh query_id row _ Hf).
      cbn [bind]; rewrite M; reflexivity. }
    eexists; eexists; eexists; split; [exact E|].
    split; [apply (get_session_data_performs _ _ _ P' Hs)|].
    split; [apply (get_session_data_performs _ _ _ P' Hs)|].
    cbn [sessions research_queries research_structure worker_results
         sd_session sd_queries].
    rewrite select_where_app.
    split; [unfold select_where at 2; simpl; now rewrite eqb_str_refl|].
    split; [reflexivity|].
    intros other Hn; apply get_session_data_same; try reflexivity.
    cbn [research_queries]; rewrite select_where_app.
    unfold select_where at 2; simpl.
    rewrite (eqb_str_neq session other) by congruence.
    now rewrite app_nil_r.
Qed.

(** X24.  While the session identifiers are unique: whenever
    [get_session_data] returns, its entry ['reports'] is the row of the
    session itself, or empty when there is no such session, for it is read
    from the sessions and never from the reports; on an engine that objects
    to nothing it returns for an identifier that has an encoding in UTF-8
    and raises for one that has none.  The identifiers are still unique
    after [create_session] and after [update_session_access], whether
    the call returned or raised. *)
Theorem sessions_stay_unique_and_reports_are_sessions db :
  unique_sessions db ->
  (forall eng session data,
     get_session_data eng db session = Ok data ->
     sd_reports data
     = match sd_session data with
       | Some s => [s]
       | None => []
       end)
  /\ (forall eng session,
        performs eng ->
        (encodable session = true ->
         exists data, get_session_data eng db session = Ok data)
        /\ (encodable session = false ->
            get_session_data eng db session = Raise UnicodeEncodeError))
  /\ (forall eng uuid4 now user meta,
        unique_sessions
          (fst (create_session json_dumps eng db uuid4 now user meta)))
  /\ (forall eng now session,
        unique_sessions (fst (update_session_access eng db now session))).
Proof.
  intros U; split; [|split; [|split]].
  - intros eng session data E.
    rewrite (get_session_data_inv _ _ _ _ E); cbn [sd_reports sd_session].
    now apply select_where_unique.
  - intros eng session P; split.
    + intros H; eexists; apply (get_session_data_performs _ _ _ P H).
    + apply (get_session_data_refused _ _ _ P).
  - intros eng uuid4 now user meta; unfold create_session.
    destruct (stage (connect eng)) as [[]|e]; cbn [bind fst]; [|exact U].
    destruct (metadata_text json_dumps meta) as [text|e]; cbn [bind fst];
      [|exact U].
    destruct (execute eng 0 _) as [[]|e]; cbn [bind fst]; [|exact U].
    destruct (insert session_id _ (sessions db)) as [rows|e] eqn:I;
      cbn [bind fst]; [|exact U].
    destruct (stage (commit eng)) as [[]|e]; cbn [bind fst]; [|exact U].
    apply insert_inv in I as [-> Hf].
    unfold unique_sessions in *; cbn [sessions].
    rewrite map_app; cbn [map session_id].
    apply NoDup_app; [exact U|repeat constructor; intros []|].
    intros x Hx [<-|[]]; exact (Hf Hx).
  - intros eng now session; unfold update_session_access.
    destruct (stage (connect eng)) as [[]|e]; cbn [bind fst]; [|exact U].
    destruct (execute eng 0 _) as [[]|e]; cbn [bind fst]; [|exact U].
    destruct (stage (commit eng)) as [[]|e]; cbn [bind fst]; [|exact U].
    unfold unique_sessions in *; cbn [sessions]; rewrite map_map.
    erewrite map_ext; [exact U|].
    intros s; unfold touch; now destruct (eqb_str (session_id s) session).
Qed.

(** X25.  On an engine that objects to nothing, [get_user_session] raises
    for a user that has no encoding in UTF-8 and for a limit outside the
    signed integers of 64 bits.  Otherwise it lists sessions of the given
    user only, the most recently accessed first, at most [limit] of them
    when the limit is not negative and all of them when it is negative. *)
Theorem get_user_session_listing eng db user limit :
  performs eng ->
  (encodable user = false ->
   get_user_session eng db user limit = Raise UnicodeEncodeError)
  /\ (encodable user = true -> int64 limit = false ->
      get_user_session eng db user limit = Raise OverflowError)
  /\ (encodable user = true -> int64 limit = true ->
      exists rows,
        get_user_session eng db user limit = Ok rows
        /\ ((0 <= limit)%Z -> length rows <= Z.to_nat limit)
        /\ (forall id created accessed st,
              In (id, created, accessed, st) rows ->
              exists s, In s (sessions db)
                /\ user_id s = Some user
                /\ (session_id s, created_at s, last_accessed s, status s)
                   = (id, created, accessed, st))
        /\ StronglySorted (fun a b => (snd (fst b) <= snd (fst a))%N) rows
        /\ ((limit < 0)%Z ->
            Permutation rows
              (map (fun s => (session_id s, created_at s, last_accessed s,
                              status s))
                 (filter (of_user user) (sessions db))))).
Proof.
  intros P; pose proof P as (C & _).
  split; [|split].
  - intros H; unfold get_user_session; rewrite C; cbn [stage bind].
    rewrite (execute_performs _ _ _ P); cbn [bind_all].
    rewrite (bind_text_refused _ H); reflexivity.
  - intros Hu H; unfold get_user_session; rewrite C; cbn [stage bind].
    rewrite (execute_performs _ _ _ P); cbn [bind_all].
    rewrite (bind_text_ok _ Hu); cbn [bind].
    rewrite (bind_int_refused _ H); reflexivity.
  - intros Hu Hl; eexists.
    split; [apply (get_user_session_performs _ _ _ _ P Hu Hl)|].
    split; [|split; [|split]].
    + intros H; rewrite length_map; unfold limit_rows.
      replace (limit <? 0)%Z with false by (symmetry; apply Z.ltb_ge; lia).
      rewrite length_firstn; lia.
    + intros id created accessed st H.
      apply in_map_iff in H as (s & E & Hs).
      apply limit_rows_in in Hs.
      apply (Permutation_in _ (order_by_recent_perm _)) in Hs.
      apply filter_In in Hs as [Hs Hp].
      exists s; split; [exact Hs|split; [|exact E]].
      unfold of_user in Hp; destruct (user_id s) as [u|]; [|discriminate].
      apply ArvixFacts.eqb_str_eq in Hp; now subst.
    + pose proof (limit_rows_sorted limit _
                    (order_by_recent_sorted
                       (filter (of_user user) (sessions db)))) as S.
      induction S as [|s l _ IH Hs]; [constructor|].
      cbn [map]; constructor; [exact IH|].
      apply Forall_map; eapply Forall_impl; [|exact Hs].
      intros t Ht; exact Ht.
    + intros H; unfold limit_rows.
      apply Z.ltb_lt in H; rewrite H.
      apply Permutation_map, order_by_recent_perm.
Qed.

End StoreProperties.

Module StoreMore.

Import Store StoreFacts.

Lemma unique_key_row {R} (key : R -> str) (l : list R) a b :
  NoDup (map key l) -> In a l -> In b l -> key a = key b -> a = b.
Proof.
  induction l as [|x l IH]; [contradiction|].
  intros H Ha Hb E; inversion H as [|? ? Hx Hl]; subst.
  destruct Ha as [->|Ha], Hb as [->|Hb]; auto.
  - exfalso; apply Hx; rewrite E; now apply in_map.
  - exfalso; apply Hx; rewrite <- E; now apply in_map.
Qed.

Lemma touch_user now session s : user_id (touch now session s) = user_id s.
Proof. unfold touch; now destruct (eqb_str (session_id s) session). Qed.

Lemma sorted_head_recent s l :
  StronglySorted recent (s :: l) ->
  forall t, In t (s :: l) -> (last_accessed t <= last_accessed s)%N.
Proof.
  intros H t [<-|Ht]; [lia|].
  inversion H as [|? ? _ Hall]; subst.
  rewrite Forall_forall in Hall; exact (Hall t Ht).
Qed.

Lemma hd_limit_rows {R} limit (r : R) l :
  limit <> 0%Z -> hd_error (limit_rows limit (r :: l)) = Some r.
Proof.
  intros H; unfold limit_rows.
  destruct (limit <? 0)%Z eqn:E; [reflexivity|].
  apply Z.ltb_ge in E.
  destruct (Z.to_nat limit) eqn:N; [lia|reflexivity].
Qed.

End StoreMore.

Section StoreAccess.

Import Sqlite SqliteFacts Store StoreFacts StoreMore.

(** X26.  On engines that object to nothing, for a user and a session
    identifier that have an encoding in UTF-8 and a limit other than 0
    within the signed integers of 64 bits: after [update_session_access]
    at a time later than the last access of every other session of the
    user, [get_user_session] lists the touched session first, with its new
    access time. *)
Theorem update_session_access_moves_first eng eng' db now s user limit :
  performs eng ->
  performs eng' ->
  encodable (session_id s) = true ->
  encodable user = true ->
  int64 limit = true ->
  unique_sessions db ->
  In s (sessions db) ->
  user_id s = Some user ->
  (forall t, In t (sessions db) -> user_id t = Some user ->
     session_id t <> session_id s -> (last_accessed t < now)%N) ->
  limit <> 0%Z ->
  exists db' rows,
    update_session_access eng db now (session_id s) = (db', Ok tt)
    /\ get_user_session eng' db' user limit = Ok rows
    /\ hd_error rows = Some (session_id s, created_at s, now, status s).
Proof.
  intros P P' Hes Heu Hel U Hs Hu Hold Hl.
  eexists; eexists.
  split; [apply (update_session_access_performs _ _ _ _ P Hes)|].
  split; [apply (get_user_session_performs _ _ _ _ P' Heu Hel)|].
  cbn [sessions].
  set (rows := filter (of_user user)
                 (map (touch now (session_id s)) (sessions db))).
  assert (Ts : touch now (session_id s) s
               = {| session_id := session_id s; user_id := user_id s;
                    created_at := created_at s; last_accessed := now;
                    status := status s; metadata := metadata s |}).
  { unfold touch; now rewrite eqb_str_refl. }
  assert (In_s : In (touch now (session_id s) s) rows).
  { apply filter_In; split; [now apply in_map|].
    unfold of_user; rewrite touch_user, Hu; apply eqb_str_refl. }
  pose proof (order_by_recent_perm rows) as Pm.
  pose proof (order_by_recent_sorted rows) as S.
  destruct (order_by_recent rows) as [|h rest] eqn:E.
  { apply Permutation_nil in Pm.
    rewrite Pm in In_s; contradiction. }
  assert (Hh : In h rows) by (apply (Permutation_in _ Pm); now left).
  assert (Hmax : (last_accessed (touch now (session_id s) s)
                  <= last_accessed h)%N).
  { apply (sorted_head_recent h rest S).
    apply (Permutation_in _ (Permutation_sym Pm)); exact In_s. }
  rewrite Ts in Hmax; cbn [last_accessed] in Hmax.
  apply filter_In in Hh as [Hh Huh].
  apply in_map_iff in Hh as (t & <- & Ht).
  unfold of_user in Huh; rewrite touch_user in Huh.
  destruct (user_id t) as [u|] eqn:Eu; [|discriminate].
  apply ArvixFacts.eqb_str_eq in Huh; subst u.
  assert (Eid : session_id t = session_id s).
  { destruct (list_eq_dec N.eq_dec (session_id t) (session_id s)) as [e|n];
      [exact e|].
    specialize (Hold t Ht Eu n).
    unfold touch in Hmax; rewrite (eqb_str_neq _ _ n) in Hmax; lia. }
  assert (t = s) by (eapply (unique_key_row session_id); eauto).
  subst t.
  pose proof (hd_limit_rows limit (touch now (session_id s) s) rest Hl) as H.
  destruct (limit_rows limit (touch now (session_id s) s :: rest)) as [|r l];
    [discriminate|].
  injection H as ->.
  cbn [map hd_error]; rewrite Ts; reflexivity.
Qed.

End StoreAccess.

Lemma quiet_performs : Sqlite.performs quiet.
Proof. unfold Sqlite.performs; repeat split. Defined.

Lemma create_session_then_get_witness :
  Store.create_session toy_dumps quiet small_store (lit "s4") 400
    (Some lone_surrogate) (Some [])
  = (small_store, Raise Sqlite.UnicodeEncodeError)
  /\ exists db' data,
       Store.create_session toy_dumps quiet small_store (lit "s4") 400
         (Some (lit "bob")) (Some [])
       = (db', Ok (lit "s4"))
       /\ Store.get_session_data quiet db' (lit "s4") = Ok data
       /\ Store.sd_session data
          = Some {| Store.session_id := lit "s4";
                    Store.user_id := Some (lit "bob");
                    Store.created_at := 400;
                    Store.last_accessed := 400;
                    Store.status := lit "active";
                    Store.metadata := None |}.
Proof.
  split.
  - apply (proj1 (create_session_then_get toy_dumps quiet quiet small_store
                    (lit "s4") 400%N (Some lone_surrogate) (Some []) None
                    quiet_performs eq_refl eq_refl)).
    reflexivity.
  - destruct (proj2 (create_session_then_get toy_dumps quiet quiet small_store
                       (lit "s4") 400%N (Some (lit "bob")) (Some []) None
                       quiet_performs eq_refl eq_refl)
                eq_refl eq_refl)
      as (db' & data & E & G & S & _).
    + vm_compute; intuition discriminate.
    + exact quiet_performs.
    + exists db', data; split; [exact E|split; [exact G|exact S]].
Defined.

Lemma save_research_queries_then_get_witness :
  Store.save_research_queries toy_dumps quiet small_store (lit "q1") 400
    (lit "s9") lone_surrogate [lit "solar storage"]
  = (small_store, Raise Sqlite.UnicodeEncodeError)
  /\ exists db' data',
       Store.save_research_queries toy_dumps quiet small_store (lit "q1") 400
         (lit "s9") (lit "solar") [lit "solar storage"]
       = (db', Ok (lit "q1"))
       /\ Store.get_session_data quiet db' (lit "s9") = Ok data'
       /\ Store.sd_session data' = None
       /\ length (Store.sd_queries data') = 1.
Proof.
  split.
  - apply (proj1 (save_research_queries_then_get toy_dumps quiet quiet
                    small_store (lit "q1") 400%N (lit "s9") lone_surrogate
                    [lit "solar storage"] (lit "[]")
                    quiet_performs eq_refl eq_refl)).
    reflexivity.
  - destruct (proj2 (save_research_queries_then_get toy_dumps quiet quiet
                       small_store (lit "q1") 400%N (lit "s9") (lit "solar")
                       [lit "solar storage"] (lit "[]")
                       quiet_performs eq_refl eq_refl)
                eq_refl eq_refl eq_refl)
      as (db' & data & data' & E & G & G' & Q & S & _).
    + intros [].
    + exact quiet_performs.
    + exists db', data'; split; [exact E|split; [exact G'|]].
      injection G as <-.
      split; [rewrite S; reflexivity|rewrite Q; reflexivity].
Defined.

Lemma small_store_unique : Store.unique_sessions small_store.
Proof.
  unfold Store.unique_sessions; cbn [small_store Store.sessions map].
  repeat constructor; vm_compute; intuition discriminate.
Defined.

Lemma sessions_stay_unique_and_reports_are_sessions_witness :
  (exists data,
     Store.get_session_data quiet small_store (lit "s2") = Ok data
     /\ Store.sd_reports data = [session_of (lit "s2") (Some (lit "ann")) 200])
  /\ Store.get_session_data quiet small_store lone_surrogate
     = Raise Sqlite.UnicodeEncodeError
  /\ Store.unique_sessions
       (fst (Store.update_session_access quiet small_store 500 (lit "s1"))).
Proof.
  destruct (sessions_stay_unique_and_reports_are_sessions toy_dumps
              small_store small_store_unique) as (R & G & _ & U).
  split; [|split].
  - destruct (proj1 (G quiet (lit "s2") quiet_performs) eq_refl) as (data & E).
    exists data; split; [exact E|].
    rewrite (R _ _ _ E).
    injection E as <-; reflexivity.
  - apply (proj2 (G quiet lone_surrogate quiet_performs)); reflexivity.
  - apply U.
Defined.

Lemma get_user_session_listing_witness :
  (exists rows,
     Store.get_user_session quiet small_store (lit "ann") 1 = Ok rows
     /\ length rows <= 1)
  /\ (exists rows,
        Store.get_user_session quiet small_store (lit "ann") (-1) = Ok rows
        /\ Permutation rows
             [ (lit "s1", 100%N, 100%N, lit "active");
               (lit "s2", 100%N, 200%N, lit "active") ])
  /\ Store.get_user_session quiet small_store (lit "ann") (2 ^ 63)
     = Raise Sqlite.OverflowError.
Proof.
  destruct (get_user_session_listing quiet small_store (lit "ann") 1
              quiet_performs) as (_ & _ & One).
  destruct (get_user_session_listing quiet small_store (lit "ann") (-1)
              quiet_performs) as (_ & _ & All).
  destruct (get_user_session_listing quiet small_store (lit "ann") (2 ^ 63)
              quiet_performs) as (_ & Over & _).
  split; [|split].
  - destruct (One eq_refl eq_refl) as (rows & E & B & _).
    exists rows; split; [exact E|apply B; lia].
  - destruct (All eq_refl eq_refl) as (rows & E & _ & _ & _ & P).
    exists rows; split; [exact E|apply P; lia].
  - apply Over; reflexivity.
Defined.

Lemma update_session_access_moves_first_witness :
  exists db' rows,
    Store.update_session_access quiet small_store 500 (lit "s1")
    = (db', Ok tt)
    /\ Store.get_user_session quiet db' (lit "ann") 10 = Ok rows
    /\ hd_error rows = Some (lit "s1", 100%N, 500%N, lit "active").
Proof.
  apply (update_session_access_moves_first quiet quiet small_store 500%N
           (session_of (lit "s1") (Some (lit "ann")) 100) (lit "ann") 10).
  - exact quiet_performs.
  - exact quiet_performs.
  - reflexivity.
  - reflexivity.
  - reflexivity.
  - exact small_store_unique.
  - left; reflexivity.
  - reflexivity.
  - intros t [<-|[<-|[<-|[]]]] Hu Hn.
    + exfalso; apply Hn; reflexivity.
    + reflexivity.
    + discriminate.
  - discriminate.
Defined.
